(** * The voice-session hook [useGeminiLive]: model and verified properties

    A shallow embedding of the React hook [useGeminiLive] (the session
    orchestrator: [cleanup], [connect], the session callbacks [onopen],
    [onmessage], [onclose], [onerror], and [disconnect]).

    Conventions of the embedding.
    - The refs and the React state of the hook are the fields of the record
      [Hook]; a procedure of the hook is a function from [Hook] to the new
      [Hook] together with the list of calls it made on the outside world
      (callbacks of the configuration, Web Audio, the capture device, the
      live session), in program order.
    - JavaScript numbers that hold times (the playback cursor, the clock of
      the output context, the duration of a buffer) are exact rationals [Q].
    - Objects created by the hook (contexts, analysers, buffer sources,
      promises) are identified by a natural number drawn from [nextObject].
    - [decode] and [decodeAudioData] belong to [utils/audio] and are not
      modelled: a message carries the buffer its inline data decodes to.
    - Handlers never run concurrently, but [onmessage] is an async function
      that is suspended at the [await] on the decoder: a call of it runs up
      to the [await] ([onmessage]), the rest runs when the decoder has
      resolved ([resumed]), and any other handler can run in between.  The
      decoder may also fail, and then the rest never runs.  The [await] on
      the microphone request in [connect] resolves within [connect]. *)

From Stdlib Require Import List String Bool Arith Lia ZArith QArith Qminmax.
Import ListNotations.
Local Open Scope string_scope.
Local Open Scope list_scope.

(** ** Configuration *)

(** [TranscriptCallbacks] and [AudioCallbacks]: every member is optional; a
    field is [true] when the caller defined that member.  What a callback does
    is the caller's business; the hook's invocation is recorded as a [Call]. *)
Record TranscriptCallbacks := {
  onUserTranscriptionChunk : bool;
  onUserTranscriptionComplete : bool;
  onAiTranscriptionChunk : bool;
  onAiTranscriptionComplete : bool;
  onTurnComplete : bool;
  onInterrupted : bool
}.

Record AudioCallbacks := {
  onAudioLevel : bool;
  onSpeakingStateChange : bool
}.

Record UseGeminiLiveConfig := {
  systemInstruction : option string;
  voiceName : option string;
  photoContext : option string;
  transcriptCallbacks : option TranscriptCallbacks;
  audioCallbacks : option AudioCallbacks
}.

(** The default argument [{}] of [connect] and the initial [configRef]. *)
Definition emptyConfig : UseGeminiLiveConfig :=
  {| systemInstruction := None; voiceName := None; photoContext := None;
     transcriptCallbacks := None; audioCallbacks := None |}.

(** [cfg.transcriptCallbacks?.member] is defined. *)
Definition hasT (member : TranscriptCallbacks -> bool) (cfg : UseGeminiLiveConfig) : bool :=
  match transcriptCallbacks cfg with Some cbs => member cbs | None => false end.

Definition hasA (member : AudioCallbacks -> bool) (cfg : UseGeminiLiveConfig) : bool :=
  match audioCallbacks cfg with Some cbs => member cbs | None => false end.

(** Truthiness of an optional string: defined and not empty. *)
Definition truthy (o : option string) : option string :=
  match o with
  | Some EmptyString => None
  | Some s => Some s
  | None => None
  end.

(** [o || d] on strings. *)
Definition orDefault (o : option string) (d : string) : string :=
  match truthy o with Some s => s | None => d end.

(** ** Calls on the outside world *)

Inductive Call :=
  (* members of [transcriptCallbacks] and [audioCallbacks] *)
  | OnUserTranscriptionChunk (text : string)
  | OnUserTranscriptionComplete (fullText : string)
  | OnAiTranscriptionChunk (text : string)
  | OnAiTranscriptionComplete (fullText : string)
  | OnTurnComplete
  | OnInterrupted
  | OnAudioLevel (level : Q)
  | OnSpeakingStateChange (isSpeaking : bool)
  (* playback *)
  | SourceStart (node : nat) (when : Q) (duration : Q)
  | SourceStop (node : nat)
  (* audio graph and capture device *)
  | AudioContextNew (ctx : nat) (sampleRate : Z)
  | AudioContextClose (ctx : nat)
  | CreateAnalyser (ctx analyser : nat)
  | GetUserMedia
  | CreateMediaStreamSource (ctx stream : nat)
  | CreateScriptProcessor (ctx : nat)
  (* [MediaStreamTrack.stop()] on the tracks of a capture stream, the call
     that gives the microphone back.  The hook has no call site for it; it is
     listed so that theorems can say so. *)
  | MediaStreamTrackStop (stream : nat)
  (* live session *)
  | LiveConnect (promise : nat) (model voice instruction : string)
  | SessionClose (session : nat)
  | SendRealtimeInput (promise : nat) (frame : nat).

(** ** State of the hook *)

(** The session object a [sessionPromise] resolves to; [hasClose] is
    [typeof session.close === 'function']. *)
Record Session := { sessionId : nat; hasClose : bool }.

Record Hook := {
  isConnected : bool;
  isConnecting : bool;
  error : option string;
  inputAudioContextRef : option nat;
  outputAudioContextRef : option nat;
  inputAnalyserRef : option nat;
  outputAnalyserRef : option nat;
  nextStartTimeRef : Q;
  (* a JS [Set]: insertion order, no duplicates *)
  audioSourcesRef : list nat;
  sessionPromiseRef : option nat;
  currentSessionRef : option Session;
  currentUserTextRef : string;
  currentAiTextRef : string;
  configRef : UseGeminiLiveConfig;
  (* some script processor has its [onaudioprocess] set.  Every [connect]
     makes a script processor of its own (line 172) and the [onopen] of its
     session sets the handler (line 199); no code removes a handler or
     disconnects a processor, and every handler is the same function of the
     frame and of [sessionPromiseRef] *)
  onaudioprocess : bool;
  (* identity of the next object created *)
  nextObject : nat
}.

(** The hook as [useGeminiLive] initialises it. *)
Definition initialHook : Hook :=
  {| isConnected := false; isConnecting := false; error := None;
     inputAudioContextRef := None; outputAudioContextRef := None;
     inputAnalyserRef := None; outputAnalyserRef := None;
     nextStartTimeRef := 0; audioSourcesRef := [];
     sessionPromiseRef := None; currentSessionRef := None;
     currentUserTextRef := ""; currentAiTextRef := "";
     configRef := emptyConfig; onaudioprocess := false; nextObject := O |}.

Definition set_isConnected (v : bool) (h : Hook) : Hook :=
  Build_Hook v (isConnecting h) (error h) (inputAudioContextRef h)
    (outputAudioContextRef h) (inputAnalyserRef h) (outputAnalyserRef h)
    (nextStartTimeRef h) (audioSourcesRef h) (sessionPromiseRef h)
    (currentSessionRef h) (currentUserTextRef h) (currentAiTextRef h)
    (configRef h) (onaudioprocess h) (nextObject h).

Definition set_isConnecting (v : bool) (h : Hook) : Hook :=
  Build_Hook (isConnected h) v (error h) (inputAudioContextRef h)
    (outputAudioContextRef h) (inputAnalyserRef h) (outputAnalyserRef h)
    (nextStartTimeRef h) (audioSourcesRef h) (sessionPromiseRef h)
    (currentSessionRef h) (currentUserTextRef h) (currentAiTextRef h)
    (configRef h) (onaudioprocess h) (nextObject h).

Definition set_error (v : option string) (h : Hook) : Hook :=
  Build_Hook (isConnected h) (isConnecting h) v (inputAudioContextRef h)
    (outputAudioContextRef h) (inputAnalyserRef h) (outputAnalyserRef h)
    (nextStartTimeRef h) (audioSourcesRef h) (sessionPromiseRef h)
    (currentSessionRef h) (currentUserTextRef h) (currentAiTextRef h)
    (configRef h) (onaudioprocess h) (nextObject h).

Definition set_inputAudioContextRef (v : option nat) (h : Hook) : Hook :=
  Build_Hook (isConnected h) (isConnecting h) (error h) v
    (outputAudioContextRef h) (inputAnalyserRef h) (outputAnalyserRef h)
    (nextStartTimeRef h) (audioSourcesRef h) (sessionPromiseRef h)
    (currentSessionRef h) (currentUserTextRef h) (currentAiTextRef h)
    (configRef h) (onaudioprocess h) (nextObject h).

Definition set_outputAudioContextRef (v : option nat) (h : Hook) : Hook :=
  Build_Hook (isConnected h) (isConnecting h) (error h) (inputAudioContextRef h)
    v (inputAnalyserRef h) (outputAnalyserRef h)
    (nextStartTimeRef h) (audioSourcesRef h) (sessionPromiseRef h)
    (currentSessionRef h) (currentUserTextRef h) (currentAiTextRef h)
    (configRef h) (onaudioprocess h) (nextObject h).

Definition set_inputAnalyserRef (v : option nat) (h : Hook) : Hook :=
  Build_Hook (isConnected h) (isConnecting h) (error h) (inputAudioContextRef h)
    (outputAudioContextRef h) v (outputAnalyserRef h)
    (nextStartTimeRef h) (audioSourcesRef h) (sessionPromiseRef h)
    (currentSessionRef h) (currentUserTextRef h) (currentAiTextRef h)
    (configRef h) (onaudioprocess h) (nextObject h).

Definition set_outputAnalyserRef (v : option nat) (h : Hook) : Hook :=
  Build_Hook (isConnected h) (isConnecting h) (error h) (inputAudioContextRef h)
    (outputAudioContextRef h) (inputAnalyserRef h) v
    (nextStartTimeRef h) (audioSourcesRef h) (sessionPromiseRef h)
    (currentSessionRef h) (currentUserTextRef h) (currentAiTextRef h)
    (configRef h) (onaudioprocess h) (nextObject h).

Definition set_nextStartTimeRef (v : Q) (h : Hook) : Hook :=
  Build_Hook (isConnected h) (isConnecting h) (error h) (inputAudioContextRef h)
    (outputAudioContextRef h) (inputAnalyserRef h) (outputAnalyserRef h)
    v (audioSourcesRef h) (sessionPromiseRef h)
    (currentSessionRef h) (currentUserTextRef h) (currentAiTextRef h)
    (configRef h) (onaudioprocess h) (nextObject h).

Definition set_audioSourcesRef (v : list nat) (h : Hook) : Hook :=
  Build_Hook (isConnected h) (isConnecting h) (error h) (inputAudioContextRef h)
    (outputAudioContextRef h) (inputAnalyserRef h) (outputAnalyserRef h)
    (nextStartTimeRef h) v (sessionPromiseRef h)
    (currentSessionRef h) (currentUserTextRef h) (currentAiTextRef h)
    (configRef h) (onaudioprocess h) (nextObject h).

Definition set_sessionPromiseRef (v : option nat) (h : Hook) : Hook :=
  Build_Hook (isConnected h) (isConnecting h) (error h) (inputAudioContextRef h)
    (outputAudioContextRef h) (inputAnalyserRef h) (outputAnalyserRef h)
    (nextStartTimeRef h) (audioSourcesRef h) v
    (currentSessionRef h) (currentUserTextRef h) (currentAiTextRef h)
    (configRef h) (onaudioprocess h) (nextObject h).

Definition set_currentSessionRef (v : option Session) (h : Hook) : Hook :=
  Build_Hook (isConnected h) (isConnecting h) (error h) (inputAudioContextRef h)
    (outputAudioContextRef h) (inputAnalyserRef h) (outputAnalyserRef h)
    (nextStartTimeRef h) (audioSourcesRef h) (sessionPromiseRef h)
    v (currentUserTextRef h) (currentAiTextRef h)
    (configRef h) (onaudioprocess h) (nextObject h).

Definition set_currentUserTextRef (v : string) (h : Hook) : Hook :=
  Build_Hook (isConnected h) (isConnecting h) (error h) (inputAudioContextRef h)
    (outputAudioContextRef h) (inputAnalyserRef h) (outputAnalyserRef h)
    (nextStartTimeRef h) (audioSourcesRef h) (sessionPromiseRef h)
    (currentSessionRef h) v (currentAiTextRef h)
    (configRef h) (onaudioprocess h) (nextObject h).

Definition set_currentAiTextRef (v : string) (h : Hook) : Hook :=
  Build_Hook (isConnected h) (isConnecting h) (error h) (inputAudioContextRef h)
    (outputAudioContextRef h) (inputAnalyserRef h) (outputAnalyserRef h)
    (nextStartTimeRef h) (audioSourcesRef h) (sessionPromiseRef h)
    (currentSessionRef h) (currentUserTextRef h) v
    (configRef h) (onaudioprocess h) (nextObject h).

Definition set_configRef (v : UseGeminiLiveConfig) (h : Hook) : Hook :=
  Build_Hook (isConnected h) (isConnecting h) (error h) (inputAudioContextRef h)
    (outputAudioContextRef h) (inputAnalyserRef h) (outputAnalyserRef h)
    (nextStartTimeRef h) (audioSourcesRef h) (sessionPromiseRef h)
    (currentSessionRef h) (currentUserTextRef h) (currentAiTextRef h)
    v (onaudioprocess h) (nextObject h).

Definition set_onaudioprocess (v : bool) (h : Hook) : Hook :=
  Build_Hook (isConnected h) (isConnecting h) (error h) (inputAudioContextRef h)
    (outputAudioContextRef h) (inputAnalyserRef h) (outputAnalyserRef h)
    (nextStartTimeRef h) (audioSourcesRef h) (sessionPromiseRef h)
    (currentSessionRef h) (currentUserTextRef h) (currentAiTextRef h)
    (configRef h) v (nextObject h).

Definition set_nextObject (v : nat) (h : Hook) : Hook :=
  Build_Hook (isConnected h) (isConnecting h) (error h) (inputAudioContextRef h)
    (outputAudioContextRef h) (inputAnalyserRef h) (outputAnalyserRef h)
    (nextStartTimeRef h) (audioSourcesRef h) (sessionPromiseRef h)
    (currentSessionRef h) (currentUserTextRef h) (currentAiTextRef h)
    (configRef h) (onaudioprocess h) v.

(** ** Procedures: state passing with a log of calls *)

Definition Act := Hook -> Hook * list Call.

Definition skip : Act := fun h => (h, []).

Definition seq (a b : Act) : Act :=
  fun h =>
    let (h1, log1) := a h in
    let (h2, log2) := b h1 in
    (h2, log1 ++ log2).

Notation "a ;; b" := (seq a b) (at level 61, right associativity).

(** One call on the outside. *)
Definition call (c : Call) : Act := fun h => (h, [c]).

(** A [forEach] whose body is one call. *)
Definition calls (cs : list Call) : Act := fun h => (h, cs).

(** An assignment to a ref or a state setter. *)
Definition write (f : Hook -> Hook) : Act := fun h => (f h, []).

(** Reading a ref. *)
Definition read {A : Type} (get : Hook -> A) (k : A -> Act) : Act :=
  fun h => k (get h) h.

Definition when_ (b : bool) (a : Act) : Act := if b then a else skip.

(** [new] / [create...]: the object gets the next identity. *)
Definition fresh (k : nat -> Act) : Act :=
  fun h => k (nextObject h) (set_nextObject (S (nextObject h)) h).

(** [configRef.current.transcriptCallbacks?.member?.(...)]. *)
Definition invokeT (member : TranscriptCallbacks -> bool) (c : Call) : Act :=
  read configRef (fun cfg => when_ (hasT member cfg) (call c)).

(** [configRef.current.audioCallbacks?.member?.(...)]. *)
Definition invokeA (member : AudioCallbacks -> bool) (c : Call) : Act :=
  read configRef (fun cfg => when_ (hasA member cfg) (call c)).

Definition isEmpty (s : string) : bool :=
  match s with EmptyString => true | _ => false end.

(** [Set.prototype.add] and [Set.prototype.delete] on the set of sources. *)
Definition setAdd (x : nat) (l : list nat) : list nat :=
  if existsb (Nat.eqb x) l then l else l ++ [x].

Definition setDelete (x : nat) (l : list nat) : list nat :=
  filter (fun y => negb (Nat.eqb x y)) l.

(** ** [cleanup] *)

Definition cleanup : Act :=
  (* Stop all playing sources *)
  read audioSourcesRef (fun sources => calls (map SourceStop sources)) ;;
  write (set_audioSourcesRef []) ;;
  (* Close audio contexts *)
  read inputAudioContextRef (fun r =>
    match r with
    | Some ctx => call (AudioContextClose ctx) ;; write (set_inputAudioContextRef None)
    | None => skip
    end) ;;
  read outputAudioContextRef (fun r =>
    match r with
    | Some ctx => call (AudioContextClose ctx) ;; write (set_outputAudioContextRef None)
    | None => skip
    end) ;;
  (* Reset analysers *)
  write (set_inputAnalyserRef None) ;;
  write (set_outputAnalyserRef None) ;;
  (* Close Gemini session *)
  read currentSessionRef (fun r =>
    match r with
    | Some session =>
        when_ (hasClose session) (call (SessionClose (sessionId session))) ;;
        write (set_currentSessionRef None)
    | None => skip
    end) ;;
  (* Reset transcript accumulation *)
  write (set_currentUserTextRef "") ;;
  write (set_currentAiTextRef "") ;;
  write (set_sessionPromiseRef None) ;;
  write (set_isConnected false) ;;
  write (set_isConnecting false) ;;
  write (set_nextStartTimeRef 0).

(** ** [connect] *)

(** What a [try] block can catch. *)
Inductive Thrown :=
  | DOMException (name message : string)
  | ErrorObject (message : string)
  | ThrownString (s : string)
  | ThrownOther.

Inductive UserMedia :=
  | Granted (stream : nat)
  | Rejected (err : Thrown).

(** What [connect] finds in its surroundings: [process.env.API_KEY], whether
    [navigator.mediaDevices.getUserMedia] exists, whether an [AudioContext]
    constructor exists, and how the microphone request settles. *)
Record Environment := {
  API_KEY : option string;
  mediaDevices : bool;
  AudioContextClass : bool;
  getUserMedia : UserMedia
}.

Definition model : string := "gemini-2.5-flash-native-audio-preview-09-2025".

Definition defaultInstruction : string :=
  "You are a helpful, witty, and concise AI assistant. Keep your responses short and conversational.".

Definition noApiKey : string := "API Key not found in environment variables.".

Definition noMediaDevices : string :=
  "Your browser doesn't support microphone access. Please use Chrome, Firefox, or Edge, and make sure you're accessing via localhost or HTTPS.".

Definition noWebAudio : string := "Your browser doesn't support Web Audio API.".

(** The message computed in the [catch] block. *)
Definition errorMessage (err : Thrown) : string :=
  match err with
  | DOMException name message =>
      if (name =? "NotAllowedError")%string then
        "Microphone access denied. Please allow microphone permission and try again."
      else if (name =? "NotFoundError")%string then
        "No microphone found. Please connect a microphone and try again."
      else ("Audio error: " ++ name ++ " - " ++ message)%string
  | ErrorObject message =>
      if isEmpty message then "Failed to start conversation." else message
  | ThrownString s => s
  | ThrownOther => "Failed to start conversation."
  end.

(** The [catch] block. *)
Definition connectCatch (err : Thrown) : Act :=
  write (set_error (Some (errorMessage err))) ;;
  cleanup.

(** Steps 4 to 6 of the [try] block, after the microphone was granted. *)
Definition connectSession (config : UseGeminiLiveConfig) (inputCtx stream : nat) : Act :=
  call (CreateMediaStreamSource inputCtx stream) ;;
  call (CreateScriptProcessor inputCtx) ;;
  fresh (fun sessionPromise =>
    call (LiveConnect sessionPromise model
            (orDefault (voiceName config) "Kore")
            (orDefault (systemInstruction config) defaultInstruction)) ;;
    write (set_sessionPromiseRef (Some sessionPromise))).

(** The [try] block with its [catch]. *)
Definition connectTry (env : Environment) (config : UseGeminiLiveConfig) : Act :=
  write (set_isConnecting true) ;;
  write (set_error None) ;;
  write (set_currentUserTextRef "") ;;
  write (set_currentAiTextRef "") ;;
  (if negb (AudioContextClass env) then connectCatch (ErrorObject noWebAudio)
   else
     fresh (fun inputCtx =>
     call (AudioContextNew inputCtx 16000) ;;
     fresh (fun outputCtx =>
     call (AudioContextNew outputCtx 24000) ;;
     write (set_inputAudioContextRef (Some inputCtx)) ;;
     write (set_outputAudioContextRef (Some outputCtx)) ;;
     fresh (fun inputAnalyser =>
     call (CreateAnalyser inputCtx inputAnalyser) ;;
     write (set_inputAnalyserRef (Some inputAnalyser)) ;;
     fresh (fun outputAnalyser =>
     call (CreateAnalyser outputCtx outputAnalyser) ;;
     write (set_outputAnalyserRef (Some outputAnalyser)) ;;
     call GetUserMedia ;;
     match getUserMedia env with
     | Granted stream => connectSession config inputCtx stream
     | Rejected err => connectCatch err
     end))))).

Definition connect (env : Environment) (config : UseGeminiLiveConfig) : Act :=
  match truthy (API_KEY env) with
  | None => write (set_error (Some noApiKey))
  | Some _ =>
      (* Store config for callbacks *)
      write (set_configRef config) ;;
      (if negb (mediaDevices env) then write (set_error (Some noMediaDevices))
       else connectTry env config)
  end.

(** [sessionPromise.then(sess => { currentSessionRef.current = sess; })]. *)
Definition sessionResolved (sess : Session) : Act :=
  write (set_currentSessionRef (Some sess)).

(** ** Session callbacks *)

Definition onopen : Act :=
  write (set_isConnected true) ;;
  write (set_isConnecting false) ;;
  write (set_onaudioprocess true).

(** The handler [onopen] sets on a script processor, on one capture frame.
    While no handler has been set a frame goes nowhere.  The handler reads
    [sessionPromiseRef] when the frame comes, whichever [connect] made its
    script processor: when the ref holds a promise the frame is attached to
    it with [then], to be passed to [sendRealtimeInput] once the promise has
    resolved; the handler does not look at the state of the channel. *)
Definition audioprocess (frame : nat) : Act :=
  read onaudioprocess (fun installed =>
    when_ installed
      (read sessionPromiseRef (fun r =>
         match r with
         | Some promise => call (SendRealtimeInput promise frame)
         | None => skip
         end))).

(** A decoded buffer: its [duration] and the level computed from its samples
    (a root mean square in floating point, carried as a value). *)
Record AudioBuffer := { duration : Q; level : Q }.

(** [message.serverContent], through its optional chains:
    [inputTranscription?.text], [outputTranscription?.text],
    [modelTurn?.parts?.[0]?.inlineData?.data] (present when truthy, with the
    buffer it decodes to), [turnComplete], [interrupted]. *)
Record LiveServerMessage := {
  inputTranscription : option string;
  outputTranscription : option string;
  modelTurn : option AudioBuffer;
  turnComplete : bool;
  interrupted : bool
}.

(** 1. Handle User Input Transcription *)
Definition handleInputTranscription (message : LiveServerMessage) : Act :=
  match truthy (inputTranscription message) with
  | Some userChunk =>
      read currentUserTextRef (fun t =>
        write (set_currentUserTextRef (t ++ userChunk)%string)) ;;
      invokeT onUserTranscriptionChunk (OnUserTranscriptionChunk userChunk)
  | None => skip
  end.

(** 2. Handle AI Output Transcription *)
Definition handleOutputTranscription (message : LiveServerMessage) : Act :=
  match truthy (outputTranscription message) with
  | Some aiChunk =>
      read currentAiTextRef (fun t =>
        write (set_currentAiTextRef (t ++ aiChunk)%string)) ;;
      invokeT onAiTranscriptionChunk (OnAiTranscriptionChunk aiChunk)
  | None => skip
  end.

(** When AI starts responding, save any accumulated user text. *)
Definition saveUserText : Act :=
  read currentUserTextRef (fun fullUserText =>
  read audioSourcesRef (fun sources =>
    when_ (negb (isEmpty fullUserText) && (List.length sources =? 0)%nat)
      (invokeT onUserTranscriptionComplete (OnUserTranscriptionComplete fullUserText) ;;
       write (set_currentUserTextRef "")))).

(** From the speaking notification up to the [await]. *)
Definition beforeDecode (currentTime : Q) : Act :=
  read audioSourcesRef (fun sources =>
    when_ (List.length sources =? 0)%nat
      (invokeA onSpeakingStateChange (OnSpeakingStateChange true))) ;;
  (* Ensure we schedule after the current time *)
  read nextStartTimeRef (fun t =>
    write (set_nextStartTimeRef (Qmax t currentTime))).

(** From the [await] to the end of the audio branch. *)
Definition afterDecode (audioBuffer : AudioBuffer) : Act :=
  fresh (fun sourceNode =>
    read nextStartTimeRef (fun t =>
      call (SourceStart sourceNode t (duration audioBuffer))) ;;
    read audioSourcesRef (fun sources =>
      write (set_audioSourcesRef (setAdd sourceNode sources))) ;;
    (* Update next start time *)
    read nextStartTimeRef (fun t =>
      write (set_nextStartTimeRef (t + duration audioBuffer))) ;;
    invokeA onAudioLevel (OnAudioLevel (level audioBuffer))).

(** 4. Handle Turn Complete *)
Definition handleTurnComplete (message : LiveServerMessage) : Act :=
  when_ (turnComplete message)
    (read currentAiTextRef (fun fullAiText =>
       invokeT onAiTranscriptionComplete (OnAiTranscriptionComplete fullAiText)) ;;
     invokeT onTurnComplete OnTurnComplete ;;
     write (set_currentAiTextRef "")).

(** 5. Handle Interruption *)
Definition handleInterrupted (message : LiveServerMessage) : Act :=
  when_ (interrupted message)
    (read audioSourcesRef (fun sources => calls (map SourceStop sources)) ;;
     write (set_audioSourcesRef []) ;;
     write (set_nextStartTimeRef 0) ;;
     (* Clear current AI text as it was interrupted *)
     write (set_currentAiTextRef "") ;;
     invokeT onInterrupted OnInterrupted ;;
     invokeA onSpeakingStateChange (OnSpeakingStateChange false)).

(** A call of [onmessage]; [currentTime] is [ctx.currentTime] as the handler
    reads it.  [onmessage] is an async function: the call runs it up to the
    [await] on the decoder (line 251) or, when it does not come to it, to
    its end.  At the [await] the invocation is suspended with its locals
    [ctx] and [message]; what is left of it is [resumed]. *)
Definition onmessage (currentTime : Q) (message : LiveServerMessage) : Act :=
  handleInputTranscription message ;;
  handleOutputTranscription message ;;
  (* 3. Handle Audio Output *)
  match modelTurn message with
  | Some audioBuffer =>
      saveUserText ;;
      read outputAudioContextRef (fun r =>
        match r with
        | None => skip (* return *)
        | Some ctx => beforeDecode currentTime (* await decodeAudioData(...) *)
        end)
  | None =>
      handleTurnComplete message ;;
      handleInterrupted message
  end.

(** [sourceNode.connect(outputAnalyserRef.current!)] for a source node made
    by [ctx].  The non-null assertion is erased at run time and the ref is
    passed as it is: [connect] throws a [TypeError] on [null] and an
    [InvalidAccessError] on a node of another context.  The analyser the ref
    holds was created on the context [outputAudioContextRef] holds: [connect]
    writes the two refs together (lines 143 to 157) and [cleanup] clears
    both. *)
Definition connectable (ctx : nat) (h : Hook) : bool :=
  match outputAnalyserRef h, outputAudioContextRef h with
  | Some analyser, Some current => (ctx =? current)%nat
  | _, _ => false
  end.

(** [onmessage] from line 258 on: the invocation that was suspended with the
    locals [ctx] and [message] resumes once the decoder has resolved.  It
    reads the refs as they are by then.  When the source cannot be connected
    the exception ends the invocation: the function has no [catch], and what
    follows line 260 does not run. *)
Definition resumed (ctx : nat) (message : LiveServerMessage) : Act :=
  match modelTurn message with
  | Some audioBuffer =>
      read (connectable ctx) (fun connects =>
        if connects then
          afterDecode audioBuffer ;;
          handleTurnComplete message ;;
          handleInterrupted message
        else
          (* ctx.createBufferSource(), then connect(...) throws *)
          fresh (fun sourceNode => skip))
  | None => skip
  end.

(** The listener of ['ended'] added to [sourceNode]. *)
Definition ended (sourceNode : nat) : Act :=
  read audioSourcesRef (fun sources =>
    write (set_audioSourcesRef (setDelete sourceNode sources))) ;;
  (* Notify when all audio finished *)
  read audioSourcesRef (fun sources =>
    when_ (List.length sources =? 0)%nat
      (invokeA onSpeakingStateChange (OnSpeakingStateChange false))).

Definition onclose : Act := cleanup.

Definition connectionError : string := "Connection error occurred.".

Definition onerror : Act :=
  write (set_error (Some connectionError)) ;;
  cleanup.

Definition disconnect : Act := cleanup.

(** The function returned by the effect: clean up on unmount. *)
Definition unmount : Act := cleanup.

(** ** Events and runs *)

(** What can happen to the hook, one handler at a time: calls of its
    interface ([Connect], [Disconnect]), the unmount of the component, the
    resolution of the session promise, the callbacks of a session, the end
    of a scheduled source, a capture frame that comes to a handler.

    A message goes through the hook in two events.  [OnMessage] is the call
    of [onmessage], up to the [await] on the decoder.  [Decoded ctx message]
    is the resumption of an invocation that was suspended with the locals
    [ctx] and [message], when its decoder has resolved; any event can come
    between the two.  [DecodeFailed] is the decoder that rejects, or
    [decode] that throws on the inline data: the invocation ends there with
    a rejected promise and no code of the hook runs.  A sequence of events
    is not required to resume what was suspended, nor to suspend what it
    resumes: the properties below hold for every sequence.

    The callbacks are those of any session the hook opened, and
    [AudioProcess] is a frame of any capture pipeline whose handler is set:
    they all act on the same refs.  The exceptions of [connect] are those of
    its [try] block that the source names: the missing [AudioContext] and
    the rejection of the microphone request. *)
Inductive Event :=
  | Connect (env : Environment) (config : UseGeminiLiveConfig)
  | Disconnect
  | Unmount
  | SessionResolved (session : Session)
  | OnOpen
  | OnMessage (currentTime : Q) (message : LiveServerMessage)
  | Decoded (ctx : nat) (message : LiveServerMessage)
  | DecodeFailed
  | OnClose
  | OnError
  | Ended (sourceNode : nat)
  | AudioProcess (frame : nat).

Definition handle (e : Event) : Act :=
  match e with
  | Connect env config => connect env config
  | Disconnect => disconnect
  | Unmount => unmount
  | SessionResolved session => sessionResolved session
  | OnOpen => onopen
  | OnMessage currentTime message => onmessage currentTime message
  | Decoded ctx message => resumed ctx message
  | DecodeFailed => skip
  | OnClose => onclose
  | OnError => onerror
  | Ended sourceNode => ended sourceNode
  | AudioProcess frame => audioprocess frame
  end.

(** Events are handled one at a time, in order of arrival. *)
Fixpoint run (events : list Event) : Act :=
  match events with
  | [] => skip
  | e :: rest => handle e ;; run rest
  end.

(** * Vocabulary of the statements *)

(** ** Parts of [onmessage] *)

(** The part of [onmessage] that precedes the test of the output context. *)
Definition prologue (m : LiveServerMessage) : Act :=
  handleInputTranscription m ;; handleOutputTranscription m.

(** A call of [onmessage] after the two transcription steps. *)
Definition tailOf (now : Q) (m : LiveServerMessage) : Act :=
  match modelTurn m with
  | Some audioBuffer =>
      saveUserText ;;
      read outputAudioContextRef (fun r =>
        match r with
        | None => skip
        | Some ctx => beforeDecode now
        end)
  | None => handleTurnComplete m ;; handleInterrupted m
  end.

(** The handling of the two flags, with which [onmessage] ends. *)
Definition flagsOf (m : LiveServerMessage) : Act :=
  handleTurnComplete m ;; handleInterrupted m.



(** The chunk a message appends to the user buffer, and to the AI buffer. *)
Definition userChunkOf (m : LiveServerMessage) : string :=
  match truthy (inputTranscription m) with Some chunk => chunk | None => "" end.

Definition aiChunkOf (m : LiveServerMessage) : string :=
  match truthy (outputTranscription m) with Some chunk => chunk | None => "" end.


(** ** States *)

(** Nothing is scheduled, no context, analyser or session is held, the
    accumulators and the cursor have their initial values, and the status is
    neither connected nor connecting. *)
Definition idle (h : Hook) : Prop :=
  audioSourcesRef h = [] /\
  inputAudioContextRef h = None /\ outputAudioContextRef h = None /\
  inputAnalyserRef h = None /\ outputAnalyserRef h = None /\
  currentSessionRef h = None /\ sessionPromiseRef h = None /\
  currentUserTextRef h = "" /\ currentAiTextRef h = "" /\
  nextStartTimeRef h = 0 /\
  isConnected h = false /\ isConnecting h = false.


(** [connect] finds everything it asks for. *)
Definition granted (env : Environment) (stream : nat) : Prop :=
  truthy (API_KEY env) <> None /\ mediaDevices env = true /\
  AudioContextClass env = true /\ getUserMedia env = Granted stream.

(** A configuration without its photo, and the state of the hook without the
    photo stored in [configRef]. *)
Definition withoutPhoto (cfg : UseGeminiLiveConfig) : UseGeminiLiveConfig :=
  {| systemInstruction := systemInstruction cfg; voiceName := voiceName cfg;
     photoContext := None;
     transcriptCallbacks := transcriptCallbacks cfg;
     audioCallbacks := audioCallbacks cfg |}.

Definition forget (h : Hook) : Hook := set_configRef (withoutPhoto (configRef h)) h.

(** ** Observers of the log *)

(** The close of the context a ref holds, and of the session. *)
Definition closeContext (r : option nat) : list Call :=
  match r with Some ctx => [AudioContextClose ctx] | None => [] end.

Definition closeSession (r : option Session) : list Call :=
  match r with
  | Some session => if hasClose session then [SessionClose (sessionId session)] else []
  | None => []
  end.

(** The start time and the duration of every buffer scheduled. *)
Definition startOf (c : Call) : list (Q * Q) :=
  match c with SourceStart _ t d => [(t, d)] | _ => [] end.

Definition starts (log : list Call) : list (Q * Q) := flat_map startOf log.

(** The texts handed to [onUserTranscriptionComplete]. *)
Definition userTurnOf (c : Call) : list string :=
  match c with OnUserTranscriptionComplete t => [t] | _ => [] end.

Definition userTurns (log : list Call) : list string := flat_map userTurnOf log.

(** The texts handed to [onAiTranscriptionComplete]. *)
Definition aiTurnOf (c : Call) : list string :=
  match c with OnAiTranscriptionComplete t => [t] | _ => [] end.

Definition aiTurns (log : list Call) : list string := flat_map aiTurnOf log.

(** The contexts closed. *)
Definition closedContextOf (c : Call) : list nat :=
  match c with AudioContextClose ctx => [ctx] | _ => [] end.

(** The promises of the sessions opened. *)
Definition openedBy (c : Call) : list nat :=
  match c with LiveConnect promise _ _ _ => [promise] | _ => [] end.

Definition opened (log : list Call) : list nat := flat_map openedBy log.

(** The frames passed on towards [sendRealtimeInput]. *)
Definition sentBy (c : Call) : list nat :=
  match c with SendRealtimeInput _ frame => [frame] | _ => [] end.

Definition sent (log : list Call) : list nat := flat_map sentBy log.

(** The streams whose tracks are stopped. *)
Definition trackStopOf (c : Call) : list nat :=
  match c with MediaStreamTrackStop stream => [stream] | _ => [] end.


(** ** Properties of procedures *)

(** [keeps get a]: the procedure [a] leaves the field read by [get] as it
    found it. *)
Definition keeps {A : Type} (get : Hook -> A) (a : Act) : Prop :=
  forall h, get (fst (a h)) = get h.

(** [silent f a]: no call of [a] is seen by the observer [f]. *)
Definition silent {X : Type} (f : Call -> list X) (a : Act) : Prop :=
  forall h, flat_map f (snd (a h)) = [].



(** A schedule without overlap: no buffer starts before the one scheduled
    before it ends. *)
Fixpoint chained (schedule : list (Q * Q)) : Prop :=
  match schedule with
  | [] => True
  | (s, d) :: rest =>
      match rest with
      | [] => True
      | (s', _) :: _ => s + d <= s'
      end /\ chained rest
  end.


(** [alike a b]: from states that differ at most in the stored photo, [a] and
    [b] make the same calls and end in states that differ at most in the
    stored photo. *)
Definition alike (a b : Act) : Prop :=
  forall h h', forget h = forget h' ->
    forget (fst (a h)) = forget (fst (b h')) /\ snd (a h) = snd (b h').

(** ** Sequences of events *)

(** Messages delivered in order, each with the clock its handler reads, to
    a hook whose output context is [ctx]; the decoder of a message that
    carries audio resolves before the next message comes. *)
Definition deliver (ctx : nat) (chunks : list (Q * LiveServerMessage)) : list Event :=
  flat_map (fun c =>
    OnMessage (fst c) (snd c) ::
    match modelTurn (snd c) with
    | Some _ => [Decoded ctx (snd c)]
    | None => []
    end) chunks.

(** A message that carries audio and is not an interruption. *)
Definition audioChunk (m : LiveServerMessage) : Prop :=
  modelTurn m <> None /\ interrupted m = false.

Definition durationOf (m : LiveServerMessage) : Q :=
  match modelTurn m with Some b => duration b | None => 0 end.

(** The schedule the chunks get from a cursor: start at [max cursor now],
    move the cursor to the end of the buffer. *)
Fixpoint timeline (cursor : Q) (chunks : list (Q * LiveServerMessage)) : list (Q * Q) :=
  match chunks with
  | [] => []
  | c :: rest =>
      let startAt := Qmax cursor (fst c) in
      (startAt, durationOf (snd c)) :: timeline (startAt + durationOf (snd c)) rest
  end.

Fixpoint cursorAfter (cursor : Q) (chunks : list (Q * LiveServerMessage)) : Q :=
  match chunks with
  | [] => cursor
  | c :: rest => cursorAfter (Qmax cursor (fst c) + durationOf (snd c)) rest
  end.





(** Events that reset a buffer without handing it over: [cleanup] and
    [connect] reset both buffers, an interruption resets the AI buffer (in
    the call of [onmessage] or when the invocation resumes). *)
Definition resets (e : Event) : bool :=
  match e with
  | Connect _ _ | Disconnect | Unmount | OnClose | OnError => true
  | _ => false
  end.


(** The call of [onmessage] on a message that carries audio. *)
Definition bringsAudio (e : Event) : bool :=
  match e with
  | OnMessage _ m => match modelTurn m with Some _ => true | None => false end
  | _ => false
  end.

Definition isOnOpen (e : Event) : bool :=
  match e with OnOpen => true | _ => false end.

Definition isConnect (e : Event) : bool :=
  match e with Connect _ _ => true | _ => false end.

(** The events that end a session through [cleanup]. *)
Definition isClosing (e : Event) : bool :=
  match e with OnClose | OnError | Disconnect | Unmount => true | _ => false end.

(** ** Inputs of the scenarios *)

Definition everyTranscriptCallback : TranscriptCallbacks :=
  {| onUserTranscriptionChunk := true; onUserTranscriptionComplete := true;
     onAiTranscriptionChunk := true; onAiTranscriptionComplete := true;
     onTurnComplete := true; onInterrupted := true |}.

Definition everyAudioCallback : AudioCallbacks :=
  {| onAudioLevel := true; onSpeakingStateChange := true |}.

(** The configuration [startSessionWithData] passes (the text of the
    instruction is a constant of the application). *)
Definition appConfig : UseGeminiLiveConfig :=
  {| systemInstruction := Some "SYSTEM_INSTRUCTION"; voiceName := Some "Kore";
     photoContext := None;
     transcriptCallbacks := Some everyTranscriptCallback;
     audioCallbacks := Some everyAudioCallback |}.

(** The application's configuration with a photo attached. *)
Definition photoConfig : UseGeminiLiveConfig :=
  {| systemInstruction := Some "SYSTEM_INSTRUCTION"; voiceName := Some "Kore";
     photoContext := Some "/9j/4AAQSkZJRg==";
     transcriptCallbacks := Some everyTranscriptCallback;
     audioCallbacks := Some everyAudioCallback |}.

(** A browser with a key, a microphone the user grants, and Web Audio. *)
Definition goodEnvironment : Environment :=
  {| API_KEY := Some "key"; mediaDevices := true; AudioContextClass := true;
     getUserMedia := Granted 100 |}.

Definition deniedEnvironment : Environment :=
  {| API_KEY := Some "key"; mediaDevices := true; AudioContextClass := true;
     getUserMedia := Rejected (DOMException "NotAllowedError" "Permission denied") |}.

Definition theSession : Session := {| sessionId := 200; hasClose := true |}.

(** The hook while the first [connect] waits for [onopen], and once the
    session is open. *)
Definition connecting : Hook := fst (connect goodEnvironment appConfig initialHook).

Definition connected : Hook :=
  fst (run [Connect goodEnvironment appConfig; SessionResolved theSession; OnOpen] initialHook).

(** The hook after a second [connect] made while the first session is
    open. *)
Definition reconnecting : Hook :=
  fst (run [Connect goodEnvironment appConfig] connected).

(** Messages with one field each. *)
Definition audioOnly (b : AudioBuffer) : LiveServerMessage :=
  {| inputTranscription := None; outputTranscription := None;
     modelTurn := Some b; turnComplete := false; interrupted := false |}.

Definition userText (t : string) : LiveServerMessage :=
  {| inputTranscription := Some t; outputTranscription := None;
     modelTurn := None; turnComplete := false; interrupted := false |}.

Definition aiText (t : string) : LiveServerMessage :=
  {| inputTranscription := None; outputTranscription := Some t;
     modelTurn := None; turnComplete := false; interrupted := false |}.

Definition turnCompleted : LiveServerMessage :=
  {| inputTranscription := None; outputTranscription := None;
     modelTurn := None; turnComplete := true; interrupted := false |}.

Definition interruption : LiveServerMessage :=
  {| inputTranscription := None; outputTranscription := None;
     modelTurn := None; turnComplete := false; interrupted := true |}.

Definition oneSecond : AudioBuffer := {| duration := 1; level := 0 |}.

(** Two chunks of 1.0 s and 1.5 s handled at clock 0 and 0.2. *)
Definition twoChunks : list (Q * LiveServerMessage) :=
  [(0, audioOnly {| duration := 1; level := 0 |});
   (2 # 10, audioOnly {| duration := 3 # 2; level := 0 |})].

(** The hook after the user said "hi" three times. *)
Definition afterThreeHi : Hook :=
  fst (run [OnMessage 0 (userText "hi"); OnMessage 0 (userText "hi");
            OnMessage 0 (userText "hi")] connected).

(** An AI turn in two chunks, closed by [turnComplete], then a second turn of
    one chunk that is interrupted. *)
Definition twoTurns : list Event :=
  [OnMessage 0 (aiText "Hello, "); OnMessage 0 (aiText "world.");
   OnMessage 0 turnCompleted;
   OnMessage 1 (aiText "And th"); OnMessage 1 interruption;
   OnMessage 2 turnCompleted].


(** A short conversation. *)
Definition conversation : list Event :=
  [SessionResolved theSession; OnOpen; AudioProcess 1;
   OnMessage 0 (userText "hi"); OnMessage 0 (audioOnly oneSecond);
   OnMessage (1 # 2) (aiText "Hello."); Decoded 1 (audioOnly oneSecond);
   OnMessage (1 # 2) turnCompleted; Ended 5; Disconnect].

(** ** Further vocabulary: notifications, chunks, frames, reachable states *)

(** The arguments of [onSpeakingStateChange]. *)
Definition speakingOf (c : Call) : list bool :=
  match c with OnSpeakingStateChange b => [b] | _ => [] end.

Definition speaking (log : list Call) : list bool := flat_map speakingOf log.

(** The chunks passed to [onUserTranscriptionChunk] and to
    [onAiTranscriptionChunk]. *)
Definition userChunkCallOf (c : Call) : list string :=
  match c with OnUserTranscriptionChunk t => [t] | _ => [] end.

Definition aiChunkCallOf (c : Call) : list string :=
  match c with OnAiTranscriptionChunk t => [t] | _ => [] end.

(** The sessions closed. *)
Definition closedBy (c : Call) : list nat :=
  match c with SessionClose session => [session] | _ => [] end.

(** The truthy chunks the events bring, one entry per chunk. *)
Definition chunkList (o : option string) : list string :=
  match truthy o with Some chunk => [chunk] | None => [] end.

Definition userChunksOf (e : Event) : list string :=
  match e with OnMessage _ m => chunkList (inputTranscription m) | _ => [] end.

Definition aiChunksOf (e : Event) : list string :=
  match e with OnMessage _ m => chunkList (outputTranscription m) | _ => [] end.

(** The capture frames among the events. *)
Definition framesOf (e : Event) : list nat :=
  match e with AudioProcess frame => [frame] | _ => [] end.

(** The four audio refs go together: all unset, and then nothing is scheduled
    and the cursor is 0, or all set. *)
Definition paired (h : Hook) : Prop :=
  (outputAudioContextRef h = None ->
   inputAudioContextRef h = None /\ inputAnalyserRef h = None /\
   outputAnalyserRef h = None /\ audioSourcesRef h = [] /\ nextStartTimeRef h = 0) /\
  (outputAudioContextRef h <> None ->
   inputAudioContextRef h <> None /\ inputAnalyserRef h <> None /\
   outputAnalyserRef h <> None).

(** Events after which the cursor is not earlier than before: everything but
    [cleanup], an interruption, a [connect] (whose [catch] block cleans up)
    and a buffer of negative duration. *)
Definition forward (e : Event) : Prop :=
  match e with
  | OnMessage _ m | Decoded _ m => interrupted m = false /\ 0 <= durationOf m
  | SessionResolved _ | OnOpen | Ended _ | AudioProcess _ | DecodeFailed => True
  | _ => False
  end.

(** Events that leave an open channel open: neither a [connect] nor a
    [cleanup]. *)
Definition staysOpen (e : Event) : bool := negb (isConnect e) && negb (isClosing e).




(** Three chunks of one second come at the clocks 0, 1 and 2 before any is
    decoded; the decoder of the second fails and the third resumes before
    the first. *)
Definition outOfOrder : list Event :=
  [OnMessage 0 (audioOnly oneSecond); OnMessage 1 (audioOnly oneSecond);
   OnMessage 2 (audioOnly oneSecond); DecodeFailed;
   Decoded 1 (audioOnly oneSecond); Decoded 1 (audioOnly oneSecond)].




(** A message with audio, a final AI chunk and both flags. *)
Definition lastWords : LiveServerMessage :=
  {| inputTranscription := None; outputTranscription := Some "bye";
     modelTurn := Some oneSecond; turnComplete := true; interrupted := true |}.

(** The hook after [disconnect] and a late AI chunk. *)
Definition afterHours : Hook :=
  fst (run [Disconnect; OnMessage 9 (aiText "Good")] connected).


(** The frames passed on, each with the promise it is attached to. *)
Definition forwardedBy (c : Call) : list (nat * nat) :=
  match c with SendRealtimeInput promise frame => [(promise, frame)] | _ => [] end.

(** The hook after the open session has scheduled the two chunks and was then
    interrupted. *)
Definition interruptedHook : Hook :=
  fst (run (deliver 1 twoChunks ++ [OnMessage 1 interruption]) connected).

Definition isOnError (e : Event) : bool :=
  match e with OnError => true | _ => false end.

(** Events that do not write the error slot. *)
Definition keepsError (e : Event) : bool := negb (isConnect e) && negb (isOnError e).

(** * The application: [App.tsx]

    The component [App] holds the state below with [useState], passes its
    callbacks to [connect] in [startSessionWithData] and ends the session in
    [endSession].  The types [AppState], [SessionState] and [MemoryTurn]
    are declared in [./types] and [VoiceConnectionStatus] with the status
    indicator; they are given here by the values [App.tsx] uses.  The state
    [photoData] (written by [startVoiceCompanion] only) and the views are
    left out.  [Date.now()] is a parameter of the callbacks. *)
Module App.

Inductive AppState := LANDING | RENDERING | SESSION | REVIEW.

Inductive SessionState := IDLE | SPEAKING.

Inductive VoiceConnectionStatus := idle | connecting | connected.

Inductive Role := user | assistant.

Record MemoryTurn := { role : Role; text : string; timestamp : Z }.

Record State := {
  appState : AppState;
  sessionState : SessionState;
  transcript : list MemoryTurn;
  currentText : string;
  isMusicPlaying : bool;
  musicVolume : Q;
  isMicActive : bool;
  audioLevel : Q;
  voiceStatus : VoiceConnectionStatus
}.

(** The initial values of the [useState] calls. *)
Definition initial : State :=
  {| appState := LANDING; sessionState := IDLE; transcript := []; currentText := "";
     isMusicPlaying := false; musicVolume := 1 # 2; isMicActive := false;
     audioLevel := 0; voiceStatus := idle |}.

Definition setAppState (v : AppState) (s : State) : State :=
  Build_State v (sessionState s) (transcript s) (currentText s) (isMusicPlaying s)
    (musicVolume s) (isMicActive s) (audioLevel s) (voiceStatus s).

Definition setSessionState (v : SessionState) (s : State) : State :=
  Build_State (appState s) v (transcript s) (currentText s) (isMusicPlaying s)
    (musicVolume s) (isMicActive s) (audioLevel s) (voiceStatus s).

Definition setTranscript (v : list MemoryTurn) (s : State) : State :=
  Build_State (appState s) (sessionState s) v (currentText s) (isMusicPlaying s)
    (musicVolume s) (isMicActive s) (audioLevel s) (voiceStatus s).

Definition setCurrentText (v : string) (s : State) : State :=
  Build_State (appState s) (sessionState s) (transcript s) v (isMusicPlaying s)
    (musicVolume s) (isMicActive s) (audioLevel s) (voiceStatus s).

Definition setIsMusicPlaying (v : bool) (s : State) : State :=
  Build_State (appState s) (sessionState s) (transcript s) (currentText s) v
    (musicVolume s) (isMicActive s) (audioLevel s) (voiceStatus s).

Definition setIsMicActive (v : bool) (s : State) : State :=
  Build_State (appState s) (sessionState s) (transcript s) (currentText s)
    (isMusicPlaying s) (musicVolume s) v (audioLevel s) (voiceStatus s).

Definition setAudioLevel (v : Q) (s : State) : State :=
  Build_State (appState s) (sessionState s) (transcript s) (currentText s)
    (isMusicPlaying s) (musicVolume s) (isMicActive s) v (voiceStatus s).

Definition setVoiceStatus (v : VoiceConnectionStatus) (s : State) : State :=
  Build_State (appState s) (sessionState s) (transcript s) (currentText s)
    (isMusicPlaying s) (musicVolume s) (isMicActive s) (audioLevel s) v.

(** The configuration [startSessionWithData] passes to [connect]: the
    instruction (a constant of [./constants]), the voice, no photo, and the
    callbacks it defines — [onUserTranscriptionChunk] is not among them. *)
Definition sessionConfig (SYSTEM_INSTRUCTION : string) : UseGeminiLiveConfig :=
  {| systemInstruction := Some SYSTEM_INSTRUCTION;
     voiceName := Some "Kore";
     photoContext := None;
     transcriptCallbacks :=
       Some {| onUserTranscriptionChunk := false;
               onUserTranscriptionComplete := true;
               onAiTranscriptionChunk := true;
               onAiTranscriptionComplete := true;
               onTurnComplete := true;
               onInterrupted := true |};
     audioCallbacks :=
       Some {| onAudioLevel := true; onSpeakingStateChange := true |} |}.

(** What the callback invoked by a call of the hook does to the state;
    [now] is [Date.now()]. *)
Definition callback (now : Z) (c : Call) (s : State) : State :=
  match c with
  | OnAiTranscriptionChunk t =>
      setCurrentText (currentText s ++ t)%string s
  | OnUserTranscriptionComplete fullText =>
      setTranscript
        (transcript s ++ [{| role := user; text := fullText; timestamp := now |}]) s
  | OnAiTranscriptionComplete fullText =>
      setCurrentText ""
        (setTranscript
           (transcript s ++ [{| role := assistant; text := fullText; timestamp := now |}])
           s)
  | OnTurnComplete => setSessionState IDLE s
  | OnInterrupted => setSessionState IDLE (setCurrentText "" s)
  | OnAudioLevel l => setAudioLevel l s
  | OnSpeakingStateChange isSpeaking =>
      if isSpeaking then setSessionState SPEAKING s
      else setAudioLevel 0 (setSessionState IDLE s)
  | _ => s
  end.

(** The callbacks of a log, in order. *)
Definition callbacks (now : Z) (log : list Call) (s : State) : State :=
  fold_left (fun s c => callback now c s) log s.

(** One event of the hook, with the callbacks it invokes. *)
Definition deliverEvent (now : Z) (e : Event) (hs : Hook * State) : Hook * State :=
  (fst (handle e (fst hs)), callbacks now (snd (handle e (fst hs))) (snd hs)).

(** A sequence of events, each with the time of its callbacks. *)
Fixpoint session (events : list (Z * Event)) (hs : Hook * State) : Hook * State :=
  match events with
  | [] => hs
  | e :: rest => session rest (deliverEvent (fst e) (snd e) hs)
  end.

(** [startSessionWithData]: the state writes, the awaited [connectVoice], and
    the write that follows it. *)
Definition startSessionWithData (SYSTEM_INSTRUCTION : string) (env : Environment)
    (now : Z) (hs : Hook * State) : Hook * State :=
  let s1 :=
    setIsMicActive true
      (setVoiceStatus connecting
         (setSessionState IDLE
            (setIsMusicPlaying true (snd hs)))) in
  let hs2 := deliverEvent now (Connect env (sessionConfig SYSTEM_INSTRUCTION)) (fst hs, s1) in
  (fst hs2, setVoiceStatus connected (snd hs2)).

(** [endSession]. *)
Definition endSession (now : Z) (hs : Hook * State) : Hook * State :=
  let hs1 := deliverEvent now Disconnect hs in
  (fst hs1,
   setVoiceStatus idle (setIsMusicPlaying false (setAppState REVIEW (snd hs1)))).

(** The role and the text of the turn a call adds to the history. *)
Definition turnOf (c : Call) : list (Role * string) :=
  match c with
  | OnUserTranscriptionComplete t => [(user, t)]
  | OnAiTranscriptionComplete t => [(assistant, t)]
  | _ => []
  end.

Definition history (s : State) : list (Role * string) :=
  map (fun t => (role t, text t)) (transcript s).

(** [preserves R a]: the procedure [a] of the hook, with the callbacks it
    invokes, keeps the relation [R] between hook and application. *)
Definition preserves (R : Hook -> State -> Prop) (a : Act) : Prop :=
  forall now h s, R h s -> R (fst (a h)) (callbacks now (snd (a h)) s).

(** The subtitle shows the AI buffer. *)
Definition mirrors (instruction : string) (h : Hook) (s : State) : Prop :=
  configRef h = sessionConfig instruction /\ currentText s = currentAiTextRef h.

(** The application shows SPEAKING only while something is scheduled. *)
Definition scheduled (instruction : string) (h : Hook) (s : State) : Prop :=
  configRef h = sessionConfig instruction /\
  (sessionState s = SPEAKING -> audioSourcesRef h <> []).

End App.

(** The hook once a session started with the application's callbacks is
    open. *)
Definition appHook : Hook :=
  fst (run [Connect goodEnvironment (App.sessionConfig "Be kind.");
            SessionResolved theSession; OnOpen] initialHook).

(** * Properties *)

(** ** Reasoning about procedures *)

Lemma seq_eq (a b : Act) (h : Hook) :
  (a ;; b) h = (fst (b (fst (a h))), snd (a h) ++ snd (b (fst (a h)))).
Proof. unfold seq. destruct (a h) as [h1 l1]. cbn. now destruct (b h1). Qed.

Lemma fst_seq (a b : Act) (h : Hook) : fst ((a ;; b) h) = fst (b (fst (a h))).
Proof. now rewrite seq_eq. Qed.

Lemma snd_seq (a b : Act) (h : Hook) :
  snd ((a ;; b) h) = snd (a h) ++ snd (b (fst (a h))).
Proof. now rewrite seq_eq. Qed.

(** Runs the combinators of [Act] on a state given by its fields. *)
Ltac act :=
  cbv beta iota zeta delta
    [seq read write call calls when_ fresh invokeT invokeA skip fst snd
     set_isConnected set_isConnecting set_error set_inputAudioContextRef
     set_outputAudioContextRef set_inputAnalyserRef set_outputAnalyserRef
     set_nextStartTimeRef set_audioSourcesRef set_sessionPromiseRef
     set_currentSessionRef set_currentUserTextRef set_currentAiTextRef
     set_configRef set_onaudioprocess set_nextObject
     isConnected isConnecting error inputAudioContextRef outputAudioContextRef
     inputAnalyserRef outputAnalyserRef nextStartTimeRef audioSourcesRef
     sessionPromiseRef currentSessionRef currentUserTextRef currentAiTextRef
     configRef onaudioprocess nextObject].

(** ** The state after [cleanup] *)

Lemma cleanup_idle (h : Hook) : idle (fst (cleanup h)).
Proof.
  destruct h as [c1 c2 er ic oc ia oa t srcs sp cs ut at_ cfg oap n].
  unfold idle, cleanup.
  destruct ic, oc, cs as [[sid [|]]|]; act; repeat split; reflexivity.
Qed.

Lemma cleanup_when_idle (h : Hook) : idle h -> cleanup h = (h, []).
Proof.
  destruct h as [c1 c2 er ic oc ia oa t srcs sp cs ut at_ cfg oap n].
  unfold idle; cbn. intros (-> & -> & -> & -> & -> & -> & -> & -> & -> & -> & -> & ->).
  reflexivity.
Qed.

Lemma cleanup_calls (h : Hook) :
  snd (cleanup h) =
  map SourceStop (audioSourcesRef h) ++
  closeContext (inputAudioContextRef h) ++
  closeContext (outputAudioContextRef h) ++
  closeSession (currentSessionRef h).
Proof.
  destruct h as [c1 c2 er ic oc ia oa t srcs sp cs ut at_ cfg oap n].
  unfold cleanup.
  destruct ic, oc, cs as [[sid [|]]|]; act; cbn; rewrite ?app_nil_r; reflexivity.
Qed.

(** What [cleanup] leaves alone. *)
Lemma cleanup_keeps (h : Hook) :
  error (fst (cleanup h)) = error h /\
  configRef (fst (cleanup h)) = configRef h /\
  onaudioprocess (fst (cleanup h)) = onaudioprocess h /\
  nextObject (fst (cleanup h)) = nextObject h.
Proof.
  destruct h as [c1 c2 er ic oc ia oa t srcs sp cs ut at_ cfg oap n].
  unfold cleanup.
  destruct ic, oc, cs as [[sid [|]]|]; act; repeat split; reflexivity.
Qed.

(** C7. Cleanup is idempotent: [disconnect] right after [disconnect], after
    a channel error, after a remote close, or after the [catch] block of
    [connect], makes no call on the outside and leaves the state exactly as
    the first cleanup left it; that state holds no source, context, analyser
    or session, has empty transcript buffers, cursor 0 and is neither
    connected nor connecting. *)
Theorem cleanup_idempotent (h : Hook) :
  disconnect (fst (disconnect h)) = (fst (disconnect h), []) /\
  disconnect (fst (onerror h)) = (fst (onerror h), []) /\
  disconnect (fst (onclose h)) = (fst (onclose h), []) /\
  (forall err, disconnect (fst (connectCatch err h)) = (fst (connectCatch err h), [])) /\
  idle (fst (disconnect h)) /\
  idle (fst (onerror h)).
Proof.
  unfold disconnect, onclose, onerror, connectCatch.
  repeat split; try intro err; try rewrite fst_seq;
    first [ apply cleanup_when_idle; apply cleanup_idle | apply cleanup_idle ].
Qed.

(** ** Frame conditions of procedures *)

Section Frames.
Context {A X : Type} (get : Hook -> A) (f : Call -> list X).

Lemma keeps_skip : keeps get skip.
Proof. intro h; reflexivity. Qed.

Lemma keeps_seq a b : keeps get a -> keeps get b -> keeps get (a ;; b).
Proof. intros Ha Hb h. now rewrite fst_seq, Hb, Ha. Qed.

Lemma keeps_call c : keeps get (call c).
Proof. intro h; reflexivity. Qed.

Lemma keeps_calls cs : keeps get (calls cs).
Proof. intro h; reflexivity. Qed.

Lemma keeps_read {B : Type} (g : Hook -> B) k :
    (forall x, keeps get (k x)) -> keeps get (read g k).
Proof. intros Hk h. apply Hk. Qed.

Lemma keeps_when b a : keeps get a -> keeps get (when_ b a).
Proof. intros Ha. destruct b; [exact Ha | apply keeps_skip]. Qed.

Lemma keeps_fresh k :
    (forall n h, get (set_nextObject n h) = get h) ->
    (forall x, keeps get (k x)) -> keeps get (fresh k).
Proof. intros Hn Hk h. unfold fresh. now rewrite Hk, Hn. Qed.

Lemma keeps_invokeT member c : keeps get (invokeT member c).
Proof. intro h. unfold invokeT, read, when_. now destruct (hasT _ _). Qed.

Lemma keeps_invokeA member c : keeps get (invokeA member c).
Proof. intro h. unfold invokeA, read, when_. now destruct (hasA _ _). Qed.

Lemma silent_skip : silent f skip.
Proof. intro h; reflexivity. Qed.

Lemma silent_seq a b : silent f a -> silent f b -> silent f (a ;; b).
Proof. intros Ha Hb h. now rewrite snd_seq, flat_map_app, Ha, Hb. Qed.

Lemma silent_write w : silent f (write w).
Proof. intro h; reflexivity. Qed.

Lemma silent_call c : f c = [] -> silent f (call c).
Proof. intros Hc h. cbn. now rewrite Hc. Qed.

Lemma silent_stops sources :
  (forall node, f (SourceStop node) = []) -> silent f (calls (map SourceStop sources)).
Proof.
  intros Hf h. cbn. induction sources as [|x l IH]; cbn; [reflexivity|].
  now rewrite Hf.
Qed.

Lemma silent_read {B : Type} (g : Hook -> B) k :
    (forall x, silent f (k x)) -> silent f (read g k).
Proof. intros Hk h. apply Hk. Qed.

Lemma silent_when b a : silent f a -> silent f (when_ b a).
Proof. intros Ha. destruct b; [exact Ha | apply silent_skip]. Qed.

Lemma silent_fresh k : (forall x, silent f (k x)) -> silent f (fresh k).
Proof. intros Hk h. apply Hk. Qed.

Lemma silent_invokeT member c : f c = [] -> silent f (invokeT member c).
Proof.
    intros Hc h. unfold invokeT, read, when_.
    destruct (hasT _ _); cbn; now rewrite ?Hc.
  Qed.

Lemma silent_invokeA member c : f c = [] -> silent f (invokeA member c).
Proof.
    intros Hc h. unfold invokeA, read, when_.
    destruct (hasA _ _); cbn; now rewrite ?Hc.
  Qed.
End Frames.

Create HintDb frame discriminated.

#[export] Hint Resolve keeps_skip keeps_seq keeps_call keeps_calls keeps_read
  keeps_when keeps_fresh keeps_invokeT keeps_invokeA silent_skip silent_seq silent_write
  silent_call silent_stops silent_read silent_when silent_fresh silent_invokeT
  silent_invokeA : frame.

(** A write to another field, and the branches of a handler. *)
#[export] Hint Extern 1 (keeps _ (write _)) => (intro; reflexivity) : frame.
#[export] Hint Extern 1 (forall n h, _ (set_nextObject n h) = _ h) =>
  (intros; reflexivity) : frame.
#[export] Hint Extern 2 (keeps _ (match ?x with _ => _ end)) => destruct x : frame.
#[export] Hint Extern 2 (silent _ (match ?x with _ => _ end)) => destruct x : frame.
#[export] Hint Extern 1 (_ = []) => reflexivity : frame.
#[export] Hint Extern 1 (forall node, _ (SourceStop node) = []) =>
  (intro; reflexivity) : frame.

(** Solves [keeps] and [silent] goals about the handlers. *)
Ltac frame :=
  unfold onmessage, resumed, flagsOf, handleInputTranscription,
    handleOutputTranscription, saveUserText, beforeDecode, afterDecode,
    handleTurnComplete, handleInterrupted, ended, audioprocess, onopen,
    sessionResolved;
  auto 80 with frame.

(** ** Projections of the log *)

Lemma starts_app (l1 l2 : list Call) : starts (l1 ++ l2) = starts l1 ++ starts l2.
Proof. apply flat_map_app. Qed.

Lemma starts_In node t d log : In (SourceStart node t d) log -> In (t, d) (starts log).
Proof.
  intros Hin. unfold starts. apply in_flat_map.
  exists (SourceStart node t d). split; [exact Hin | now left].
Qed.

(** A call that an observer sees is not made by a procedure silent for it. *)
Lemma silent_not_In {X : Type} (f : Call -> list X) (a : Act) (c : Call) (h : Hook) :
  silent f a -> f c <> [] -> ~ In c (snd (a h)).
Proof.
  intros S Hc Hin. destruct (f c) as [|x l] eqn:E; [now apply Hc|].
  assert (Hx : In x (flat_map f (snd (a h)))).
  { apply in_flat_map. exists c. split; [exact Hin | rewrite E; now left]. }
  rewrite S in Hx. destruct Hx.
Qed.

(** ** Strings *)

Lemma append_nil_r (s : string) : (s ++ "")%string = s.
Proof. induction s as [|c s IH]; cbn; [reflexivity | now rewrite IH]. Qed.


Lemma isEmpty_false (s : string) : isEmpty s = false <-> s <> "".
Proof. destruct s; cbn; split; congruence. Qed.

(** ** The two halves of [onmessage] *)

Lemma seq_assoc (a b c : Act) (h : Hook) : ((a ;; b) ;; c) h = (a ;; b ;; c) h.
Proof. rewrite !seq_eq. cbn [fst snd]. now rewrite app_assoc. Qed.

Lemma seq_skip_r (a : Act) (h : Hook) : (a ;; skip) h = a h.
Proof. rewrite seq_eq. cbn [skip fst snd]. rewrite app_nil_r. now destruct (a h). Qed.

Lemma write_seq (f : Hook -> Hook) (a : Act) (h : Hook) : (write f ;; a) h = a (f h).
Proof. unfold seq, write. now destruct (a (f h)). Qed.

(** Two events in a row. *)
Lemma run_pair (e1 e2 : Event) (h : Hook) : run [e1; e2] h = (handle e1 ;; handle e2) h.
Proof. cbn [run]. rewrite <- seq_assoc. apply seq_skip_r. Qed.

Lemma onmessage_audio now m b h :
  modelTurn m = Some b ->
  onmessage now m h =
  (prologue m ;; saveUserText ;;
   read outputAudioContextRef (fun r =>
     match r with
     | None => skip
     | Some _ => beforeDecode now
     end)) h.
Proof.
  intros Hm. unfold onmessage, prologue. rewrite Hm.
  rewrite !seq_eq. cbn [fst snd]. now rewrite app_assoc.
Qed.

Lemma onmessage_no_audio now m h :
  modelTurn m = None -> onmessage now m h = (prologue m ;; flagsOf m) h.
Proof.
  intros Hm. unfold onmessage, prologue, flagsOf. rewrite Hm.
  rewrite !seq_eq. cbn [fst snd]. now rewrite app_assoc.
Qed.

(** The call returns early when there is no output context. *)
Lemma onmessage_early now m b h :
  modelTurn m = Some b -> outputAudioContextRef h = None ->
  onmessage now m h = (prologue m ;; saveUserText) h.
Proof.
  intros Hm Hc. rewrite (onmessage_audio _ _ _ _ Hm).
  assert (Kc : keeps outputAudioContextRef (prologue m ;; saveUserText))
    by (unfold prologue; frame).
  rewrite <- seq_assoc. rewrite (seq_eq (prologue m ;; saveUserText)).
  unfold read. rewrite Kc, Hc. unfold skip. cbn [fst snd].
  rewrite app_nil_r. now destruct ((prologue m ;; saveUserText) h).
Qed.

(** The call comes to the [await] when there is one. *)
Lemma onmessage_suspended now m b ctx h :
  modelTurn m = Some b -> outputAudioContextRef h = Some ctx ->
  onmessage now m h = (prologue m ;; saveUserText ;; beforeDecode now) h.
Proof.
  intros Hm Hc. rewrite (onmessage_audio _ _ _ _ Hm).
  assert (Kc : keeps outputAudioContextRef (prologue m ;; saveUserText))
    by (unfold prologue; frame).
  rewrite <- !seq_assoc.
  rewrite (seq_eq (prologue m ;; saveUserText)).
  rewrite (seq_eq (prologue m ;; saveUserText) (beforeDecode now)).
  unfold read. now rewrite Kc, Hc.
Qed.

Lemma connectable_iff ctx h :
  connectable ctx h = true <->
  outputAudioContextRef h = Some ctx /\ outputAnalyserRef h <> None.
Proof.
  unfold connectable.
  destruct (outputAnalyserRef h) as [a|], (outputAudioContextRef h) as [c|];
    split; try discriminate; try (intros (H1 & H2); congruence).
  - intros H. apply Nat.eqb_eq in H. subst c. split; [reflexivity | discriminate].
  - intros (H1 & _). injection H1 as ->. apply Nat.eqb_refl.
Qed.

Lemma connectable_same ctx h h' :
  outputAudioContextRef h' = outputAudioContextRef h ->
  outputAnalyserRef h' = outputAnalyserRef h ->
  connectable ctx h' = connectable ctx h.
Proof. intros H1 H2. unfold connectable. now rewrite H1, H2. Qed.

(** The invocation that resumes, by cases. *)
Lemma resumed_on ctx m b h :
  modelTurn m = Some b -> connectable ctx h = true ->
  resumed ctx m h = (afterDecode b ;; flagsOf m) h.
Proof.
  intros Hm Hc. unfold resumed. rewrite Hm. unfold read, flagsOf. now rewrite Hc.
Qed.

Lemma resumed_off ctx m h :
  modelTurn m <> None -> connectable ctx h = false ->
  resumed ctx m h = (set_nextObject (S (nextObject h)) h, []).
Proof.
  intros Hm Hc. unfold resumed.
  destruct (modelTurn m); [|congruence]. unfold read. now rewrite Hc.
Qed.

Lemma resumed_none ctx m h : modelTurn m = None -> resumed ctx m h = (h, []).
Proof. intros Hm. unfold resumed. now rewrite Hm. Qed.


(** ** Playback scheduling *)

Lemma beforeDecode_cursor now h :
  nextStartTimeRef (fst (beforeDecode now h)) = Qmax (nextStartTimeRef h) now.
Proof.
  destruct h as [c1 c2 er ic oc ia oa t srcs sp cs ut at_ cfg oap n].
  unfold beforeDecode. act.
  now destruct (List.length srcs =? 0)%nat, (hasA onSpeakingStateChange cfg).
Qed.

Lemma afterDecode_cursor b h :
  nextStartTimeRef (fst (afterDecode b h)) = nextStartTimeRef h + duration b.
Proof.
  destruct h as [c1 c2 er ic oc ia oa t srcs sp cs ut at_ cfg oap n].
  unfold afterDecode. act. now destruct (hasA onAudioLevel cfg).
Qed.

Lemma afterDecode_starts b h :
  starts (snd (afterDecode b h)) = [(nextStartTimeRef h, duration b)].
Proof.
  destruct h as [c1 c2 er ic oc ia oa t srcs sp cs ut at_ cfg oap n].
  unfold afterDecode. act. now destruct (hasA onAudioLevel cfg).
Qed.

Lemma handleInterrupted_off m h : interrupted m = false -> handleInterrupted m h = (h, []).
Proof. intros Hi. unfold handleInterrupted. now rewrite Hi. Qed.


(** A call starts no source: sources are started by the invocations that
    resume. *)
Lemma onmessage_no_start now m : silent startOf (onmessage now m).
Proof. frame. Qed.

(** The call that is suspended has clamped the cursor to the clock. *)
Lemma onmessage_clamps now m b ctx h :
  modelTurn m = Some b -> outputAudioContextRef h = Some ctx ->
  nextStartTimeRef (fst (onmessage now m h)) = Qmax (nextStartTimeRef h) now.
Proof.
  intros Hm Hc. rewrite (onmessage_suspended now m b ctx h Hm Hc).
  assert (K : keeps nextStartTimeRef (prologue m ;; saveUserText))
    by (unfold prologue; frame).
  rewrite <- seq_assoc, fst_seq, beforeDecode_cursor. now rewrite K.
Qed.

(** The invocation that resumes starts its source at the cursor as it is by
    then. *)
Lemma resumed_starts ctx m b h :
  modelTurn m = Some b -> connectable ctx h = true ->
  starts (snd (resumed ctx m h)) = [(nextStartTimeRef h, duration b)].
Proof.
  intros Hm Hc. rewrite (resumed_on ctx m b h Hm Hc).
  assert (S : silent startOf (flagsOf m)) by (unfold flagsOf; frame).
  rewrite snd_seq, starts_app. unfold starts at 2. rewrite S, app_nil_r.
  apply afterDecode_starts.
Qed.

Lemma resumed_no_start ctx m h :
  modelTurn m = None \/ connectable ctx h = false -> starts (snd (resumed ctx m h)) = [].
Proof.
  intros Hq. destruct (modelTurn m) as [b|] eqn:Hm.
  - destruct Hq as [Hq|Hq]; [discriminate|].
    rewrite resumed_off; [reflexivity | congruence | exact Hq].
  - now rewrite resumed_none.
Qed.

(** When the message is no interruption the cursor moves to the end of the
    buffer. *)
Lemma resumed_cursor ctx m b h :
  modelTurn m = Some b -> interrupted m = false -> connectable ctx h = true ->
  nextStartTimeRef (fst (resumed ctx m h)) = nextStartTimeRef h + duration b.
Proof.
  intros Hm Hi Hc. rewrite (resumed_on ctx m b h Hm Hc). unfold flagsOf.
  rewrite !fst_seq, handleInterrupted_off by exact Hi. cbn [fst].
  assert (K : keeps nextStartTimeRef (handleTurnComplete m)) by frame.
  rewrite K. apply afterDecode_cursor.
Qed.

(** One audio chunk that is no interruption, decoded before anything else
    happens, while the output context and its analyser exist: one buffer is
    started at [max cursor now] and the cursor moves to the end of that
    buffer. *)
Lemma audio_step now m b ctx h :
  modelTurn m = Some b ->
  interrupted m = false ->
  connectable ctx h = true ->
  let out := (onmessage now m ;; resumed ctx m) h in
  starts (snd out) = [(Qmax (nextStartTimeRef h) now, duration b)] /\
  nextStartTimeRef (fst out) = Qmax (nextStartTimeRef h) now + duration b /\
  connectable ctx (fst out) = true.
Proof.
  intros Hm Hi Hc out. unfold out.
  pose proof Hc as Hc0. apply connectable_iff in Hc0. destruct Hc0 as (Hctx & _).
  assert (K1 : keeps outputAudioContextRef (onmessage now m)) by frame.
  assert (K2 : keeps outputAnalyserRef (onmessage now m)) by frame.
  assert (K3 : keeps outputAudioContextRef (resumed ctx m)) by (unfold resumed; frame).
  assert (K4 : keeps outputAnalyserRef (resumed ctx m)) by (unfold resumed; frame).
  assert (Hc1 : connectable ctx (fst (onmessage now m h)) = true).
  { rewrite (connectable_same ctx h); [exact Hc | apply K1 | apply K2]. }
  rewrite snd_seq, fst_seq, starts_app.
  pose proof (onmessage_no_start now m h) as S. fold (starts (snd (onmessage now m h))) in S.
  rewrite S, app_nil_l.
  rewrite (resumed_starts ctx m b _ Hm Hc1), (resumed_cursor ctx m b _ Hm Hi Hc1).
  rewrite (onmessage_clamps now m b ctx h Hm Hctx).
  repeat split.
  rewrite (connectable_same ctx (fst (onmessage now m h))); [exact Hc1 | apply K3 | apply K4].
Qed.

Lemma run_timeline ctx chunks : forall h,
  connectable ctx h = true ->
  Forall (fun c => audioChunk (snd c)) chunks ->
  starts (snd (run (deliver ctx chunks) h)) = timeline (nextStartTimeRef h) chunks /\
  nextStartTimeRef (fst (run (deliver ctx chunks) h)) = cursorAfter (nextStartTimeRef h) chunks.
Proof.
  induction chunks as [|[now m] rest IH]; intros h Hc Hall.
  - split; reflexivity.
  - inversion Hall as [|c l [Hm Hi] Hrest]; subst. cbn [snd fst] in *.
    destruct (modelTurn m) as [b|] eqn:Eb; [|congruence].
    destruct (audio_step now m b ctx h Eb Hi Hc) as (Hs & Ht & Hc').
    cbn [deliver flat_map fst snd]. rewrite Eb. fold (deliver ctx rest).
    cbn [app run handle]. rewrite <- seq_assoc, seq_eq. cbn [fst snd].
    destruct (IH (fst ((onmessage now m ;; resumed ctx m) h)) Hc' Hrest) as (IHs & IHt).
    rewrite starts_app, Hs, IHs, IHt, Ht.
    cbn [timeline cursorAfter fst snd]. unfold durationOf. rewrite Eb. split; reflexivity.
Qed.

Lemma timeline_durations chunks : forall cursor,
  map snd (timeline cursor chunks) = map (fun c => durationOf (snd c)) chunks.
Proof.
  induction chunks as [|c rest IH]; intro cursor; cbn; [reflexivity|].
  now rewrite IH.
Qed.

Lemma timeline_next chunks : forall cursor i s d now m,
  nth_error (timeline cursor chunks) i = Some (s, d) ->
  nth_error chunks (S i) = Some (now, m) ->
  nth_error (timeline cursor chunks) (S i) = Some (Qmax (s + d) now, durationOf m).
Proof.
  induction chunks as [|c rest IH]; intros cursor i s d now m Hs Hn.
  - destruct i; discriminate.
  - destruct i as [|i].
    + cbn in Hs. injection Hs as <- <-.
      destruct rest as [|c' rest']; [discriminate|].
      cbn in Hn. injection Hn as ->. reflexivity.
    + cbn in Hs. cbn [nth_error] in Hn.
      cbn [timeline]. cbn [nth_error]. eapply IH; eassumption.
Qed.

Lemma timeline_last chunks : forall cursor pre s d,
  timeline cursor chunks = pre ++ [(s, d)] ->
  cursorAfter cursor chunks = s + d.
Proof.
  induction chunks as [|c rest IH]; intros cursor pre s d H.
  - destruct pre; discriminate.
  - cbn in H. destruct pre as [|p pre].
    + cbn in H. injection H as <- <- Hrest.
      destruct rest; [reflexivity | discriminate].
    + cbn in H. injection H as _ Hrest. cbn. eapply IH; eassumption.
Qed.

(** *** Schedules under any interleaving *)

Lemma Qle_plus_nonneg (x d : Q) : 0 <= d -> x <= x + d.
Proof.
  intros Hd. rewrite <- (Qplus_0_r x) at 1.
  apply Qplus_le_compat; [apply Qle_refl | exact Hd].
Qed.

(** A call that is no interruption moves the cursor forward or leaves it. *)
Lemma onmessage_forward now m h :
  interrupted m = false ->
  nextStartTimeRef h <= nextStartTimeRef (fst (onmessage now m h)).
Proof.
  intros Hi. destruct (modelTurn m) as [b|] eqn:Hm.
  - destruct (outputAudioContextRef h) as [ctx|] eqn:Hc.
    + rewrite (onmessage_clamps now m b ctx h Hm Hc). apply Q.le_max_l.
    + rewrite (onmessage_early now m b h Hm Hc).
      assert (K : keeps nextStartTimeRef (prologue m ;; saveUserText))
        by (unfold prologue; frame).
      rewrite K. apply Qle_refl.
  - rewrite (onmessage_no_audio now m h Hm). unfold flagsOf.
    rewrite <- seq_assoc, fst_seq, handleInterrupted_off by exact Hi.
    assert (K : keeps nextStartTimeRef (prologue m ;; handleTurnComplete m))
      by (unfold prologue; frame).
    cbn [fst]. rewrite K. apply Qle_refl.
Qed.

(** What an event that moves forward schedules: nothing, or one buffer at
    the cursor, to the end of which the cursor moves. *)
Lemma handle_schedule e h :
  forward e ->
  (starts (snd (handle e h)) = [] /\
   nextStartTimeRef h <= nextStartTimeRef (fst (handle e h))) \/
  (exists d, 0 <= d /\
     starts (snd (handle e h)) = [(nextStartTimeRef h, d)] /\
     nextStartTimeRef (fst (handle e h)) = nextStartTimeRef h + d).
Proof.
  intros Hf.
  destruct e as [env config| | |sess| |now m|ctx m| | | |node|fr]; try contradiction;
    cbn [handle].
  - left. assert (K : keeps nextStartTimeRef (sessionResolved sess)) by frame.
    assert (S : silent startOf (sessionResolved sess)) by frame.
    split; [apply S | rewrite K; apply Qle_refl].
  - left. assert (K : keeps nextStartTimeRef onopen) by frame.
    assert (S : silent startOf onopen) by frame.
    split; [apply S | rewrite K; apply Qle_refl].
  - left. destruct Hf as (Hi & _).
    split; [apply onmessage_no_start | now apply onmessage_forward].
  - destruct Hf as (Hi & Hd).
    destruct (modelTurn m) as [b|] eqn:Hm.
    + destruct (connectable ctx h) eqn:Hc.
      * right. exists (duration b). unfold durationOf in Hd. rewrite Hm in Hd.
        split; [exact Hd|].
        split; [now apply resumed_starts | now apply resumed_cursor].
      * left. rewrite resumed_off by congruence. cbn. split; [reflexivity | apply Qle_refl].
    + left. rewrite resumed_none by exact Hm. cbn. split; [reflexivity | apply Qle_refl].
  - left. cbn. split; [reflexivity | apply Qle_refl].
  - left. assert (K : keeps nextStartTimeRef (ended node)) by frame.
    assert (S : silent startOf (ended node)) by frame.
    split; [apply S | rewrite K; apply Qle_refl].
  - left. assert (K : keeps nextStartTimeRef (audioprocess fr)) by frame.
    assert (S : silent startOf (audioprocess fr)) by frame.
    split; [apply S | rewrite K; apply Qle_refl].
Qed.

Lemma handle_forward e h :
  forward e -> nextStartTimeRef h <= nextStartTimeRef (fst (handle e h)).
Proof.
  intros Hf. destruct (handle_schedule e h Hf) as [(_ & H) | (d & Hd & _ & ->)];
    [exact H | now apply Qle_plus_nonneg].
Qed.

Lemma run_forward events : forall h,
  Forall forward events ->
  nextStartTimeRef h <= nextStartTimeRef (fst (run events h)).
Proof.
  induction events as [|e rest IH]; intros h Hall.
  - apply Qle_refl.
  - inversion Hall as [|e' l He Hrest]; subst.
    cbn [run]. rewrite fst_seq.
    apply Qle_trans with (nextStartTimeRef (fst (handle e h)));
      [now apply handle_forward | now apply IH].
Qed.

Lemma chained_cons s d rest :
  chained rest -> Forall (fun sd => s + d <= fst sd) rest -> chained ((s, d) :: rest).
Proof.
  intros Hc Hall. cbn [chained]. split; [|exact Hc].
  destruct rest as [|[s' d'] l]; [exact I|].
  inversion Hall as [|x l' Hx Hl]; subst. exact Hx.
Qed.

Lemma run_schedule events : forall h,
  Forall forward events ->
  chained (starts (snd (run events h))) /\
  Forall (fun sd => nextStartTimeRef h <= fst sd /\
                    fst sd + snd sd <= nextStartTimeRef (fst (run events h)))
    (starts (snd (run events h))).
Proof.
  induction events as [|e rest IH]; intros h Hall.
  - split; [exact I | constructor].
  - inversion Hall as [|e' l He Hrest]; subst.
    cbn [run]. rewrite snd_seq, fst_seq, starts_app.
    set (h1 := fst (handle e h)).
    destruct (IH h1 Hrest) as (IHc & IHa).
    assert (Hend : nextStartTimeRef h1 <= nextStartTimeRef (fst (run rest h1)))
      by now apply run_forward.
    destruct (handle_schedule e h He) as [(Hs & Hle) | (d & Hd & Hs & Hcur)];
      fold h1 in Hle || fold h1 in Hcur; rewrite Hs.
    + cbn [app]. split; [exact IHc|].
      eapply Forall_impl; [|exact IHa]. intros [s' d'] (H1 & H2). cbn [fst snd] in *.
      split; [apply Qle_trans with (nextStartTimeRef h1); assumption | exact H2].
    + cbn [app]. split.
      * apply chained_cons; [exact IHc|].
        eapply Forall_impl; [|exact IHa]. intros [s' d'] (H1 & _). cbn [fst] in *.
        now rewrite <- Hcur.
      * constructor.
        -- cbn [fst snd]. split; [apply Qle_refl | now rewrite <- Hcur].
        -- eapply Forall_impl; [|exact IHa]. intros [s' d'] (H1 & H2). cbn [fst snd] in *.
           split; [|exact H2].
           apply Qle_trans with (nextStartTimeRef h1); [|exact H1].
           rewrite Hcur. now apply Qle_plus_nonneg.
Qed.

(** C1. Gapless, non-overlapping playback.  While the output context and
    its analyser exist, for every sequence of audio chunks (none an
    interruption), each decoded before the next one comes, handled with
    arbitrary clock readings: every buffer is started once, in order of
    arrival; the first starts at [max cursor now]; buffer [i+1] starts at
    [max now (start i + d i)], hence not before buffer [i] ends, and exactly
    when buffer [i] ends if it arrived by then; the cursor ends at the end of
    the last buffer.
    However the calls, the invocations that resume and the other handlers
    interleave, as long as no interruption, [cleanup] or [connect] is
    handled and no buffer has a negative duration, no buffer is started
    before the buffer started before it ends. *)
Theorem gapless_playback (h : Hook) (ctx : nat) (chunks : list (Q * LiveServerMessage)) :
  outputAudioContextRef h = Some ctx ->
  outputAnalyserRef h <> None ->
  Forall (fun c => audioChunk (snd c)) chunks ->
  let out := run (deliver ctx chunks) h in
  let sched := starts (snd out) in
  map snd sched = map (fun c => durationOf (snd c)) chunks /\
  (forall now m, nth_error chunks 0 = Some (now, m) ->
     nth_error sched 0 = Some (Qmax (nextStartTimeRef h) now, durationOf m)) /\
  (forall i s d now m,
     nth_error sched i = Some (s, d) ->
     nth_error chunks (S i) = Some (now, m) ->
     exists s',
       nth_error sched (S i) = Some (s', durationOf m) /\
       s' == Qmax now (s + d) /\
       s + d <= s' /\
       (now <= s + d -> s' == s + d)) /\
  (forall pre s d, sched = pre ++ [(s, d)] -> nextStartTimeRef (fst out) = s + d) /\
  (forall events h0, Forall forward events -> chained (starts (snd (run events h0)))).
Proof.
  intros Hctx Han Hall out sched.
  assert (Hc : connectable ctx h = true) by (apply connectable_iff; now split).
  destruct (run_timeline ctx chunks h Hc Hall) as (Hs & Ht).
  fold out in Hs, Ht. fold sched in Hs.
  split; [|split; [|split; [|split]]];
    [| | | |intros events h0 Hf; now apply run_schedule].
  - rewrite Hs. apply timeline_durations.
  - intros now m H0. rewrite Hs.
    destruct chunks as [|c rest]; [discriminate|].
    cbn in H0. injection H0 as ->. reflexivity.
  - intros i s d now m Hi Hn. rewrite Hs in *.
    exists (Qmax (s + d) now). split; [|split; [|split]].
    + eapply timeline_next; eassumption.
    + apply Q.max_comm.
    + apply Q.le_max_l.
    + intro Hle. now apply Q.max_l.
  - intros pre s d Hp. rewrite Ht. rewrite Hs in Hp.
    eapply timeline_last; eassumption.
Qed.

(** The scenario of the two chunks: starts 0 and 1, cursor 2.5 at the end. *)
Lemma gapless_playback_witness :
  outputAudioContextRef connected = Some 1%nat /\
  outputAnalyserRef connected <> None /\
  Forall (fun c => audioChunk (snd c)) twoChunks /\
  (exists s',
     nth_error (starts (snd (run (deliver 1 twoChunks) connected))) 1 = Some (s', 3 # 2) /\
     s' == 1) /\
  nextStartTimeRef (fst (run (deliver 1 twoChunks) connected)) == 5 # 2.
Proof.
  assert (H0 : outputAudioContextRef connected = Some 1%nat) by (vm_compute; reflexivity).
  assert (H1 : outputAnalyserRef connected <> None) by (vm_compute; discriminate).
  assert (H2 : Forall (fun c => audioChunk (snd c)) twoChunks).
  { repeat constructor; vm_compute; discriminate. }
  destruct (gapless_playback connected 1 twoChunks H0 H1 H2)
    as (_ & _ & Hnext & Hlast & _).
  split; [exact H0 | split; [exact H1 | split; [exact H2 | split]]].
  - destruct (Hnext 0%nat 0 1 (2 # 10) (audioOnly {| duration := 3 # 2; level := 0 |})
                eq_refl eq_refl) as (s' & Hs & _ & _ & Htimely).
    exists s'. split; [exact Hs|].
    rewrite Htimely; [reflexivity | vm_compute; discriminate].
  - rewrite (Hlast [(0, 1)] 1 (3 # 2) eq_refl). reflexivity.
Defined.

(** ** The flags at the end of [onmessage] *)

(** The transcription steps append the chunks of the message. *)
Lemma prologue_user m h :
  currentUserTextRef (fst (prologue m h)) = (currentUserTextRef h ++ userChunkOf m)%string.
Proof.
  destruct h as [c1 c2 er ic oc ia oa t srcs sp cs ut at_ cfg oap n].
  unfold prologue, handleInputTranscription, handleOutputTranscription, userChunkOf.
  destruct (truthy (inputTranscription m)), (truthy (outputTranscription m)); act;
    repeat match goal with |- context [if ?c then _ else _] => destruct c end;
    cbn; now rewrite ?append_nil_r.
Qed.

Lemma prologue_ai m h :
  currentAiTextRef (fst (prologue m h)) = (currentAiTextRef h ++ aiChunkOf m)%string.
Proof.
  destruct h as [c1 c2 er ic oc ia oa t srcs sp cs ut at_ cfg oap n].
  unfold prologue, handleInputTranscription, handleOutputTranscription, aiChunkOf.
  destruct (truthy (inputTranscription m)), (truthy (outputTranscription m)); act;
    repeat match goal with |- context [if ?c then _ else _] => destruct c end;
    cbn; now rewrite ?append_nil_r.
Qed.









(** The interruption branch: every source of the set is stopped, the set is
    emptied, the cursor and the AI buffer are reset, no AI turn is handed to
    the caller. *)
Lemma handleInterrupted_on m h :
  interrupted m = true ->
  (forall node, In node (audioSourcesRef h) -> In (SourceStop node) (snd (handleInterrupted m h))) /\
  audioSourcesRef (fst (handleInterrupted m h)) = [] /\
  nextStartTimeRef (fst (handleInterrupted m h)) = 0 /\
  currentAiTextRef (fst (handleInterrupted m h)) = "" /\
  outputAudioContextRef (fst (handleInterrupted m h)) = outputAudioContextRef h /\
  aiTurns (snd (handleInterrupted m h)) = [].
Proof.
  intros Hi. unfold handleInterrupted. rewrite Hi.
  destruct h as [c1 c2 er ic oc ia oa t srcs sp cs ut at_ cfg oap n]. act.
  assert (Hstop : aiTurns (map SourceStop srcs) = []).
  { induction srcs as [|x l IH]; [reflexivity | exact IH]. }
  destruct (hasT onInterrupted cfg), (hasA onSpeakingStateChange cfg); cbn;
    (split; [intros node Hin; apply in_or_app; left; now apply in_map|]);
    repeat split; try reflexivity;
    unfold aiTurns in *; rewrite flat_map_app, Hstop; reflexivity.
Qed.





(** ** Transcript buffers *)

(** [saveUserText], by cases. *)
Lemma saveUserText_flush h :
  currentUserTextRef h <> "" -> audioSourcesRef h = [] ->
  saveUserText h =
  (set_currentUserTextRef "" h,
   if hasT onUserTranscriptionComplete (configRef h)
   then [OnUserTranscriptionComplete (currentUserTextRef h)] else []).
Proof.
  intros Hne Hs. apply isEmpty_false in Hne.
  destruct h as [c1 c2 er ic oc ia oa t srcs sp cs ut at_ cfg oap n].
  cbn in *. subst srcs. unfold saveUserText. act. rewrite Hne. cbn.
  now destruct (hasT _ cfg).
Qed.

Lemma saveUserText_idle h :
  currentUserTextRef h = "" \/ audioSourcesRef h <> [] -> saveUserText h = (h, []).
Proof.
  destruct h as [c1 c2 er ic oc ia oa t srcs sp cs ut at_ cfg oap n].
  cbn. unfold saveUserText. act. intros [->|Hs]; [reflexivity|].
  destruct srcs; [congruence|]. cbn. now rewrite andb_false_r.
Qed.

(** C3. The implicit end of the user turn.  For a message that carries
    audio, with [buffer] the user text accumulated up to and including this
    message: when the active set is empty and [buffer] is not empty, the
    user buffer is cleared and, the callback being defined, [buffer] is
    handed to [onUserTranscriptionComplete] exactly once, before any source
    is started; when [buffer] is empty, or the active set is not, nothing is
    handed to [onUserTranscriptionComplete].  All of this is done by the
    call, which starts no source: the source of the message is started when
    the invocation resumes. *)
Theorem user_turn_boundary (h : Hook) (now : Q) (m : LiveServerMessage) (b : AudioBuffer) :
  modelTurn m = Some b ->
  let buffer := (currentUserTextRef h ++ userChunkOf m)%string in
  let out := onmessage now m h in
  (audioSourcesRef h = [] -> buffer <> "" ->
   currentUserTextRef (fst out) = "" /\
   (hasT onUserTranscriptionComplete (configRef h) = true ->
    exists before after,
      snd out = before ++ OnUserTranscriptionComplete buffer :: after /\
      starts before = [] /\ userTurns before = [] /\ userTurns after = [])) /\
  (buffer = "" -> userTurns (snd out) = []) /\
  (audioSourcesRef h <> [] -> userTurns (snd out) = []) /\
  starts (snd out) = [] /\
  (forall ctx, userTurns (snd (resumed ctx m (fst out))) = []).
Proof.
  intros Hm buffer out.
  assert (Hstart : starts (snd out) = []) by apply onmessage_no_start.
  assert (Hres : forall ctx, userTurns (snd (resumed ctx m (fst out))) = []).
  { intro ctx. assert (S : silent userTurnOf (resumed ctx m)) by frame. apply S. }
  revert Hstart Hres. unfold out. rewrite (onmessage_audio _ _ _ _ Hm). intros Hstart Hres.
  set (rest := read outputAudioContextRef _) in *.
  assert (Kr : keeps currentUserTextRef rest) by (unfold rest; frame).
  assert (Sr : silent userTurnOf rest) by (unfold rest; frame).
  assert (Sp : silent userTurnOf (prologue m)) by (unfold prologue; frame).
  assert (Tp : silent startOf (prologue m)) by (unfold prologue; frame).
  assert (Ks : keeps audioSourcesRef (prologue m)) by (unfold prologue; frame).
  assert (Kc : keeps configRef (prologue m)) by (unfold prologue; frame).
  pose proof (prologue_user m h) as Hu. fold buffer in Hu.
  split; [|split; [|split; [|split; [exact Hstart | exact Hres]]]];
    clear Hstart Hres; rewrite !seq_eq; cbn [fst snd];
    set (h1 := fst (prologue m h)) in *;
    assert (Hs1 : audioSourcesRef h1 = audioSourcesRef h) by apply Ks;
    assert (Hc1 : configRef h1 = configRef h) by apply Kc.
  - intros Hs Hne.
    rewrite (saveUserText_flush h1) by (rewrite ?Hu, ?Hs1; assumption).
    cbn [fst snd]. split.
    + now rewrite Kr.
    + intros Hcb. rewrite Hc1, Hcb, Hu.
      exists (snd (prologue m h)), (snd (rest (set_currentUserTextRef "" h1))).
      split; [reflexivity|]. split; [apply Tp|]. split; [apply Sp | apply Sr].
  - intros He. rewrite (saveUserText_idle h1) by (left; now rewrite Hu).
    unfold userTurns. rewrite !flat_map_app, Sp, Sr. reflexivity.
  - intros Hs. rewrite (saveUserText_idle h1) by (right; now rewrite Hs1).
    unfold userTurns. rewrite !flat_map_app, Sp, Sr. reflexivity.
Qed.

(** After "hi", "hi", "hi" the first audio chunk hands "hihihi" over (chunks
    are concatenated as they come) before the buffer is started. *)
Lemma user_turn_boundary_witness :
  modelTurn (audioOnly oneSecond) = Some oneSecond /\
  currentUserTextRef (fst (onmessage 0 (audioOnly oneSecond) afterThreeHi)) = "" /\
  exists before after,
    snd (onmessage 0 (audioOnly oneSecond) afterThreeHi) =
      before ++ OnUserTranscriptionComplete "hihihi" :: after /\
    starts before = [] /\ userTurns before = [] /\ userTurns after = [].
Proof.
  assert (H1 : modelTurn (audioOnly oneSecond) = Some oneSecond) by reflexivity.
  destruct (user_turn_boundary afterThreeHi 0 (audioOnly oneSecond) oneSecond H1)
    as (Hflush & _ & _).
  destruct Hflush as (Hclear & Hcall); [reflexivity | discriminate |].
  split; [exact H1 | split; [exact Hclear | exact (Hcall eq_refl)]].
Defined.

(** ** Accounting of what is handed over *)


Section Channel.
Context (buf : Hook -> string) (turnOf : Call -> list string)
  (member : TranscriptCallbacks -> bool).










End Channel.

(** A call of [onmessage] is the transcription steps followed by [tailOf]. *)
Lemma onmessage_split now m h : onmessage now m h = (prologue m ;; tailOf now m) h.
Proof.
  unfold onmessage, prologue, tailOf. now rewrite seq_assoc.
Qed.




(** The AI buffer. *)










(** The user buffer. *)





(** [cleanup] and [connect] hand nothing over and only ever empty the buffers. *)

Ltac frame_lifecycle :=
  unfold handle, onclose, onerror, disconnect, unmount, connect, connectTry,
    connectCatch, connectSession, cleanup;
  frame.




Lemma onerror_eq h : onerror h = cleanup (set_error (Some connectionError) h).
Proof. apply write_seq. Qed.






(** Events other than [connect] leave the configuration alone. *)
Lemma handle_keeps_config e :
  (forall env config, e <> Connect env config) -> keeps configRef (handle e).
Proof.
  intros Hne. destruct e as [env config| | |sess| |now m|ctx m| | | |node|fr];
    [exfalso; now apply (Hne env config) | frame_lifecycle ..].
Qed.












(** ** [connect] *)

(** [connect] when everything is granted, as one equation. *)
Lemma connect_granted env config stream h :
  granted env stream ->
  let n := nextObject h in
  connect env config h =
  (set_sessionPromiseRef (Some (n + 4)%nat)
     (set_nextObject (n + 5)%nat
     (set_outputAnalyserRef (Some (n + 3)%nat)
     (set_inputAnalyserRef (Some (n + 2)%nat)
     (set_outputAudioContextRef (Some (n + 1)%nat)
     (set_inputAudioContextRef (Some n)
     (set_currentAiTextRef ""
     (set_currentUserTextRef ""
     (set_error None
     (set_isConnecting true
     (set_configRef config h)))))))))),
   [AudioContextNew n 16000; AudioContextNew (n + 1) 24000;
    CreateAnalyser n (n + 2); CreateAnalyser (n + 1) (n + 3); GetUserMedia;
    CreateMediaStreamSource n stream; CreateScriptProcessor n;
    LiveConnect (n + 4) model (orDefault (voiceName config) "Kore")
      (orDefault (systemInstruction config) defaultInstruction)]).
Proof.
  intros (Hk & Hm & Ha & Hg) n. subst n.
  destruct h as [c1 c2 er ic oc ia oa t srcs sp cs ut at_ cfg oap n].
  unfold connect, connectTry, connectSession.
  destruct (truthy (API_KEY env)); [|congruence].
  rewrite Hm, Ha, Hg. act. cbn [negb].
  replace (n + 1)%nat with (S n) by lia. replace (n + 2)%nat with (S (S n)) by lia.
  replace (n + 3)%nat with (S (S (S n))) by lia.
  replace (n + 4)%nat with (S (S (S (S n)))) by lia.
  replace (n + 5)%nat with (S (S (S (S (S n))))) by lia.
  reflexivity.
Qed.

(** C5, as amended.  [connect] does not look at the status of the session:
    when the key, the capture interface, Web Audio and the microphone are
    granted, a call from any state — connecting and connected included —
    makes the same calls whatever [isConnected] and [isConnecting] are, opens
    exactly one new session, stores its promise in [sessionPromiseRef]
    in place of the previous one, and sets [isConnecting]. *)
Theorem connect_ignores_status (env : Environment) (config : UseGeminiLiveConfig)
    (stream : nat) (h : Hook) :
  granted env stream ->
  let out := connect env config h in
  opened (snd out) = [(nextObject h + 4)%nat] /\
  sessionPromiseRef (fst out) = Some (nextObject h + 4)%nat /\
  isConnecting (fst out) = true /\
  (forall connected' connecting',
     snd (connect env config (set_isConnected connected' (set_isConnecting connecting' h))) =
     snd out).
Proof.
  intros Hg out. unfold out.
  rewrite (connect_granted env config stream h Hg). cbn [fst snd].
  repeat split.
  intros c c'.
  now rewrite (connect_granted env config stream _ Hg).
Qed.

Lemma good_environment_granted : granted goodEnvironment 100.
Proof. repeat split. discriminate. Qed.

(** A second [connect] while connecting. *)
Lemma connect_ignores_status_witness :
  granted goodEnvironment 100 /\
  isConnecting connecting = true /\
  opened (snd (connect goodEnvironment appConfig connecting)) = [9%nat] /\
  sessionPromiseRef connecting = Some 4%nat /\
  sessionPromiseRef (fst (connect goodEnvironment appConfig connecting)) = Some 9%nat.
Proof.
  destruct (connect_ignores_status goodEnvironment appConfig 100 connecting
              good_environment_granted) as (Ho & Hp & _).
  split; [exact good_environment_granted|].
  split; [reflexivity|]. split; [exact Ho|]. split; [reflexivity | exact Hp].
Defined.

(** C5, as stated, fails: a second [connect] while the first is connecting,
    and one while the session is connected, each open another session. *)
Lemma second_connect_opens_second_session :
  isConnecting connecting = true /\
  opened (snd (connect goodEnvironment appConfig connecting)) <> [] /\
  isConnected connected = true /\
  opened (snd (connect goodEnvironment appConfig connected)) <> [] /\
  opened (snd (run [Connect goodEnvironment appConfig; Connect goodEnvironment appConfig]
                 initialHook)) = [4%nat; 9%nat].
Proof.
  repeat split; try reflexivity; vm_compute; discriminate.
Qed.

(** ** Capture frames *)

Lemma audioprocess_dropped frame h :
  onaudioprocess h = false \/ sessionPromiseRef h = None ->
  audioprocess frame h = (h, []).
Proof.
  destruct h as [c1 c2 er ic oc ia oa t srcs sp cs ut at_ cfg oap n]. cbn.
  unfold audioprocess. act. intros [-> | ->]; [reflexivity | now destruct oap].
Qed.

Lemma audioprocess_forwards frame promise h :
  onaudioprocess h = true -> sessionPromiseRef h = Some promise ->
  audioprocess frame h = (h, [SendRealtimeInput promise frame]).
Proof.
  destruct h as [c1 c2 er ic oc ia oa t srcs sp cs ut at_ cfg oap n]. cbn.
  intros -> ->. reflexivity.
Qed.

(** Only [onopen] writes the handler, and it sets it: no procedure removes
    one. *)
Lemma handle_keeps_handler e h :
  isOnOpen e = false -> onaudioprocess (fst (handle e h)) = onaudioprocess h.
Proof.
  intros He. destruct e; try discriminate;
    match goal with |- onaudioprocess (fst (handle ?e h)) = _ =>
      assert (K : keeps onaudioprocess (handle e)) by frame_lifecycle; apply K end.
Qed.

(** Only [connect] sets the session promise. *)
Lemma handle_keeps_no_promise e h :
  isConnect e = false -> sessionPromiseRef h = None ->
  sessionPromiseRef (fst (handle e h)) = None.
Proof.
  intros He Hh.
  assert (Hclean : forall h0, sessionPromiseRef (fst (cleanup h0)) = None).
  { intro h0. now destruct (cleanup_idle h0) as (_ & _ & _ & _ & _ & _ & -> & _). }
  destruct e as [env config| | |sess| |now m|ctx m| | | |node|fr]; try discriminate;
    cbn [handle]; try apply Hclean;
    try (unfold onerror; rewrite fst_seq; apply Hclean);
    match goal with |- sessionPromiseRef (fst (?a h)) = None =>
      assert (K : keeps sessionPromiseRef a) by frame; now rewrite K end.
Qed.

Lemma run_keeps_unset events : forall h,
  forallb (fun e => negb (isOnOpen e)) events = true ->
  onaudioprocess h = false ->
  onaudioprocess (fst (run events h)) = false.
Proof.
  induction events as [|e rest IH]; intros h Hall Hh; [exact Hh|].
  cbn [forallb] in Hall. apply andb_true_iff in Hall as (He & Hrest).
  apply negb_true_iff in He.
  cbn [run]. rewrite fst_seq. apply IH; [exact Hrest|].
  now rewrite handle_keeps_handler.
Qed.

Lemma run_keeps_no_promise events : forall h,
  forallb (fun e => negb (isConnect e)) events = true ->
  sessionPromiseRef h = None ->
  sessionPromiseRef (fst (run events h)) = None.
Proof.
  induction events as [|e rest IH]; intros h Hall Hh; [exact Hh|].
  cbn [forallb] in Hall. apply andb_true_iff in Hall as (He & Hrest).
  apply negb_true_iff in He.
  cbn [run]. rewrite fst_seq. apply IH; [exact Hrest|].
  now apply handle_keeps_no_promise.
Qed.

(** C6, as amended.  The handler of a capture frame is a total function: it
    has no failing outcome.  A frame is dropped — it changes nothing in the
    state and makes no call, so it is neither sent nor attached to a promise
    for later — exactly when no handler has been set or [sessionPromiseRef]
    holds no promise: so from a hook without a handler until the first
    [onopen], whatever else happens, and after the session ended through
    [cleanup] (remote close, error, [disconnect], unmount) until a new
    [connect].  Otherwise the frame is attached to the promise the ref holds,
    whatever the state of the channel: after a granted [connect] made while
    a handler is set, the frames are attached to the promise of the new
    session while it is still connecting. *)
Theorem frames_dropped_unless_open :
  (forall frame h,
     onaudioprocess h = false \/ sessionPromiseRef h = None ->
     audioprocess frame h = (h, [])) /\
  (forall events h frame,
     onaudioprocess h = false ->
     forallb (fun e => negb (isOnOpen e)) events = true ->
     let waiting := fst (run events h) in
     audioprocess frame waiting = (waiting, [])) /\
  (forall closing h post frame,
     isClosing closing = true ->
     forallb (fun e => negb (isConnect e)) post = true ->
     let closed := fst (run (closing :: post) h) in
     audioprocess frame closed = (closed, [])) /\
  (forall frame promise h,
     onaudioprocess h = true -> sessionPromiseRef h = Some promise ->
     audioprocess frame h = (h, [SendRealtimeInput promise frame])) /\
  (forall env config stream h frame,
     granted env stream -> onaudioprocess h = true ->
     let waiting := fst (connect env config h) in
     isConnecting waiting = true /\
     audioprocess frame waiting = (waiting, [SendRealtimeInput (nextObject h + 4) frame])).
Proof.
  split; [|split; [|split; [|split]]].
  - intros frame h. apply audioprocess_dropped.
  - intros events h frame Hh Hpre waiting.
    apply audioprocess_dropped. left. unfold waiting.
    now apply run_keeps_unset.
  - intros closing h post frame Hc Hpost closed.
    apply audioprocess_dropped. right. unfold closed.
    cbn [run]. rewrite fst_seq. apply run_keeps_no_promise; [exact Hpost|].
    assert (Hclean : forall h0, sessionPromiseRef (fst (cleanup h0)) = None).
    { intro h0. now destruct (cleanup_idle h0) as (_ & _ & _ & _ & _ & _ & -> & _). }
    destruct closing; try discriminate; cbn [handle]; try apply Hclean.
    unfold onerror. rewrite fst_seq. apply Hclean.
  - intros frame promise h. apply audioprocess_forwards.
  - intros env config stream h frame Hg Hh waiting.
    assert (Hw : onaudioprocess waiting = true).
    { pose proof (handle_keeps_handler (Connect env config) h eq_refl) as K.
      cbn [handle] in K. unfold waiting. now rewrite K. }
    assert (Hp : sessionPromiseRef waiting = Some (nextObject h + 4)%nat).
    { unfold waiting. now rewrite (connect_granted env config stream h Hg). }
    split.
    + unfold waiting. now rewrite (connect_granted env config stream h Hg).
    + now apply audioprocess_forwards.
Qed.

(** A frame captured while the first session is still connecting, one
    captured in the open session, and one captured after the remote end
    closed it. *)
Lemma frames_dropped_unless_open_witness :
  onaudioprocess initialHook = false /\
  audioprocess 1 (fst (run [Connect goodEnvironment appConfig] initialHook)) =
    (fst (run [Connect goodEnvironment appConfig] initialHook), []) /\
  sent (snd (audioprocess 1 connected)) = [1%nat] /\
  audioprocess 2 (fst (run [OnClose] connected)) = (fst (run [OnClose] connected), []).
Proof.
  destruct frames_dropped_unless_open as (_ & Hbefore & Hafter & _).
  split; [reflexivity|]. split; [|split].
  - exact (Hbefore [Connect goodEnvironment appConfig] initialHook 1%nat eq_refl eq_refl).
  - vm_compute. reflexivity.
  - exact (Hafter OnClose connected [] 2%nat eq_refl eq_refl).
Defined.

(** C6, as stated, fails.  A second [connect] made while the first session
    is open closes nothing: the capture pipeline of the first session keeps
    running with its handler set.  While the second session is still
    connecting, a frame of that pipeline is attached to the promise of the
    second session, to be sent when it resolves. *)
Lemma frames_queued_by_second_connect :
  isConnecting reconnecting = true /\
  sessionPromiseRef reconnecting = Some 9%nat /\
  audioprocess 7 reconnecting = (reconnecting, [SendRealtimeInput 9 7]) /\
  flat_map closedContextOf
    (snd (run [Connect goodEnvironment appConfig; SessionResolved theSession; OnOpen;
               Connect goodEnvironment appConfig] initialHook)) = [].
Proof. repeat split; vm_compute; reflexivity. Qed.

(** ** Failures of [connect] *)

Lemma cleanup_calls_of h h' :
  audioSourcesRef h' = audioSourcesRef h ->
  inputAudioContextRef h' = inputAudioContextRef h ->
  outputAudioContextRef h' = outputAudioContextRef h ->
  currentSessionRef h' = currentSessionRef h ->
  snd (cleanup h') = snd (cleanup h).
Proof. intros H1 H2 H3 H4. rewrite !cleanup_calls. now rewrite H1, H2, H3, H4. Qed.

Lemma connect_no_web_audio env config h :
  truthy (API_KEY env) <> None -> mediaDevices env = true -> AudioContextClass env = false ->
  connect env config h =
  connectCatch (ErrorObject noWebAudio)
    (set_currentAiTextRef "" (set_currentUserTextRef "" (set_error None
       (set_isConnecting true (set_configRef config h))))).
Proof.
  intros Hk Hm Ha. unfold connect, connectTry.
  destruct (truthy (API_KEY env)); [|congruence]. rewrite Hm, Ha. cbn [negb].
  now rewrite !write_seq.
Qed.

Lemma connectCatch_eq err h :
  connectCatch err h = cleanup (set_error (Some (errorMessage err)) h).
Proof. apply write_seq. Qed.

Lemma connect_rejected env config err h :
  truthy (API_KEY env) <> None -> mediaDevices env = true -> AudioContextClass env = true ->
  getUserMedia env = Rejected err ->
  let n := nextObject h in
  snd (connect env config h) =
    [AudioContextNew n 16000; AudioContextNew (n + 1) 24000;
     CreateAnalyser n (n + 2); CreateAnalyser (n + 1) (n + 3); GetUserMedia] ++
    map SourceStop (audioSourcesRef h) ++
    [AudioContextClose n; AudioContextClose (n + 1)] ++
    closeSession (currentSessionRef h) /\
  fst (connect env config h) =
    fst (cleanup (set_error (Some (errorMessage err))
     (set_nextObject (n + 4)%nat
     (set_outputAnalyserRef (Some (n + 3)%nat)
     (set_inputAnalyserRef (Some (n + 2)%nat)
     (set_outputAudioContextRef (Some (n + 1)%nat)
     (set_inputAudioContextRef (Some n)
     (set_currentAiTextRef ""
     (set_currentUserTextRef ""
     (set_error None
     (set_isConnecting true
     (set_configRef config h)))))))))))).
Proof.
  intros Hk Hm Ha Hg n. subst n.
  destruct h as [c1 c2 er ic oc ia oa t srcs sp cs ut at_ cfg oap n].
  unfold connect, connectTry, connectCatch, cleanup.
  destruct (truthy (API_KEY env)); [|congruence].
  rewrite Hm, Ha, Hg. cbn [negb nextObject audioSourcesRef currentSessionRef].
  replace (n + 1)%nat with (S n) by lia. replace (n + 2)%nat with (S (S n)) by lia.
  replace (n + 3)%nat with (S (S (S n))) by lia.
  replace (n + 4)%nat with (S (S (S (S n)))) by lia.
  destruct cs as [[sid [|]]|]; act; cbn [closeSession hasClose sessionId app];
    rewrite ?app_nil_r; split; reflexivity.
Qed.

(** C9, as amended.  The missing key and the missing capture interface are
    found before anything is touched: [connect] only sets the error (and,
    for the second, the configuration).  A missing [AudioContext]
    constructor is found before anything is created.  A rejected microphone
    request is found after the two contexts and the two analysers were
    created; the [catch] block then runs [cleanup], which closes both.  On
    these two paths [connect] ends with the message of the error and in the
    state [idle]: no context, analyser, promise or session is held. *)
Theorem connect_failure_paths (env : Environment) (config : UseGeminiLiveConfig) (h : Hook) :
  let out := connect env config h in
  let n := nextObject h in
  (truthy (API_KEY env) = None ->
   out = (set_error (Some noApiKey) h, [])) /\
  (truthy (API_KEY env) <> None -> mediaDevices env = false ->
   out = (set_error (Some noMediaDevices) (set_configRef config h), [])) /\
  (truthy (API_KEY env) <> None -> mediaDevices env = true ->
   AudioContextClass env = false ->
   snd out = snd (cleanup h) /\ idle (fst out) /\ error (fst out) = Some noWebAudio) /\
  (truthy (API_KEY env) <> None -> mediaDevices env = true ->
   AudioContextClass env = true ->
   forall err, getUserMedia env = Rejected err ->
   snd out =
     [AudioContextNew n 16000; AudioContextNew (n + 1) 24000;
      CreateAnalyser n (n + 2); CreateAnalyser (n + 1) (n + 3); GetUserMedia] ++
     map SourceStop (audioSourcesRef h) ++
     [AudioContextClose n; AudioContextClose (n + 1)] ++
     closeSession (currentSessionRef h) /\
   idle (fst out) /\ error (fst out) = Some (errorMessage err)).
Proof.
  intros out n. unfold out. split; [|split; [|split]].
  - intros Hk. unfold connect. now rewrite Hk.
  - intros Hk Hm. unfold connect. destruct (truthy (API_KEY env)); [|congruence].
    rewrite Hm. cbn [negb]. now rewrite write_seq.
  - intros Hk Hm Ha. rewrite (connect_no_web_audio env config h Hk Hm Ha).
    rewrite connectCatch_eq. split; [|split].
    + now apply cleanup_calls_of.
    + apply cleanup_idle.
    + match goal with |- error (fst (cleanup ?s)) = _ =>
        now destruct (cleanup_keeps s) as (-> & _) end.
  - intros Hk Hm Ha err Hg.
    destruct (connect_rejected env config err h Hk Hm Ha Hg) as (Hs & Hf).
    fold n in Hs. rewrite Hs, Hf. split; [reflexivity|].
    split; [apply cleanup_idle|].
    match goal with |- error (fst (cleanup ?s)) = _ =>
      now destruct (cleanup_keeps s) as (-> & _) end.
Qed.

(** The microphone is denied on a first [connect]. *)
Lemma connect_failure_paths_witness :
  truthy (API_KEY deniedEnvironment) <> None /\
  mediaDevices deniedEnvironment = true /\
  AudioContextClass deniedEnvironment = true /\
  idle (fst (connect deniedEnvironment appConfig initialHook)) /\
  error (fst (connect deniedEnvironment appConfig initialHook)) =
    Some "Microphone access denied. Please allow microphone permission and try again.".
Proof.
  assert (Hk : truthy (API_KEY deniedEnvironment) <> None) by discriminate.
  destruct (connect_failure_paths deniedEnvironment appConfig initialHook)
    as (_ & _ & _ & Hd).
  destruct (Hd Hk eq_refl eq_refl (DOMException "NotAllowedError" "Permission denied")
              eq_refl) as (_ & Hidle & Herr).
  split; [exact Hk|]. split; [reflexivity|]. split; [reflexivity|].
  split; [exact Hidle | exact Herr].
Defined.

(** C9, as stated, fails: when the microphone is denied both contexts and
    both analysers exist before the error is found (and are closed after). *)
Lemma device_error_found_after_contexts :
  snd (connect deniedEnvironment appConfig initialHook) =
    [AudioContextNew 0 16000; AudioContextNew 1 24000;
     CreateAnalyser 0 2; CreateAnalyser 1 3; GetUserMedia;
     AudioContextClose 0; AudioContextClose 1] /\
  error (fst (connect deniedEnvironment appConfig initialHook)) =
    Some "Microphone access denied. Please allow microphone permission and try again.".
Proof. split; vm_compute; reflexivity. Qed.

(** ** Release of the audio contexts *)






(** No procedure of the hook stops the tracks of a capture stream. *)
Lemma tracks_never_stopped events : forall h, flat_map trackStopOf (snd (run events h)) = [].
Proof.
  induction events as [|e rest IH]; intro h; [reflexivity|].
  cbn [run]. rewrite snd_seq, flat_map_app, IH, app_nil_r.
  assert (S : silent trackStopOf (handle e)); [|apply S].
  destruct e; frame_lifecycle.
Qed.




(** ** The photo of the configuration *)

Lemma alike_skip : alike skip skip.
Proof. intros h h' H. now split. Qed.

Lemma alike_seq a a' b b' : alike a a' -> alike b b' -> alike (a ;; b) (a' ;; b').
Proof.
  intros Ha Hb h h' H. rewrite !seq_eq. cbn [fst snd].
  destruct (Ha h h' H) as (Hs & Hl).
  destruct (Hb _ _ Hs) as (Hs' & Hl').
  split; [exact Hs' | now rewrite Hl, Hl'].
Qed.

Lemma alike_call c : alike (call c) (call c).
Proof. intros h h' H. now split. Qed.

Lemma alike_calls cs : alike (calls cs) (calls cs).
Proof. intros h h' H. now split. Qed.

Lemma alike_write w w' :
  (forall h h', forget h = forget h' -> forget (w h) = forget (w' h')) ->
  alike (write w) (write w').
Proof. intros Hw h h' H. split; [now apply Hw | reflexivity]. Qed.

Lemma alike_read {B : Type} (g : Hook -> B) k k' :
  (forall h h', forget h = forget h' -> g h = g h') ->
  (forall x, alike (k x) (k' x)) ->
  alike (read g k) (read g k').
Proof. intros Hg Hk h h' H. unfold read. rewrite (Hg h h' H). now apply Hk. Qed.

Lemma alike_when b a a' : alike a a' -> alike (when_ b a) (when_ b a').
Proof. intros Ha. destruct b; [exact Ha | apply alike_skip]. Qed.

Lemma alike_fresh k k' : (forall n, alike (k n) (k' n)) -> alike (fresh k) (fresh k').
Proof.
  intros Hk h h' H. unfold fresh.
  assert (Hn : nextObject h = nextObject h') by exact (f_equal nextObject H).
  rewrite Hn. apply Hk.
  exact (f_equal (set_nextObject (S (nextObject h'))) H).
Qed.

Lemma hasT_forget member h h' :
  forget h = forget h' -> hasT member (configRef h) = hasT member (configRef h').
Proof.
  intros H. apply (f_equal configRef) in H. cbn in H.
  change (hasT member (withoutPhoto (configRef h)) = hasT member (withoutPhoto (configRef h'))).
  now rewrite H.
Qed.

Lemma hasA_forget member h h' :
  forget h = forget h' -> hasA member (configRef h) = hasA member (configRef h').
Proof.
  intros H. apply (f_equal configRef) in H. cbn in H.
  change (hasA member (withoutPhoto (configRef h)) = hasA member (withoutPhoto (configRef h'))).
  now rewrite H.
Qed.

Lemma alike_invokeT member c : alike (invokeT member c) (invokeT member c).
Proof.
  intros h h' H. unfold invokeT, read. rewrite (hasT_forget member h h' H).
  now apply alike_when; [apply alike_call|].
Qed.

Lemma alike_invokeA member c : alike (invokeA member c) (invokeA member c).
Proof.
  intros h h' H. unfold invokeA, read. rewrite (hasA_forget member h h' H).
  now apply alike_when; [apply alike_call|].
Qed.

(** Storing two configurations that differ only in the photo. *)
Lemma alike_set_config c1 c2 :
  withoutPhoto c1 = withoutPhoto c2 ->
  alike (write (set_configRef c1)) (write (set_configRef c2)).
Proof.
  intros E. apply alike_write. intros h h' H.
  change (set_configRef (withoutPhoto c1) (forget h) =
          set_configRef (withoutPhoto c2) (forget h')).
  now rewrite E, H.
Qed.

Create HintDb alike discriminated.

#[export] Hint Resolve alike_skip alike_seq alike_call alike_calls alike_when
  alike_fresh alike_invokeT alike_invokeA alike_read alike_write : alike.

(** A ref other than [configRef] is the same in both states; a write to such
    a ref keeps the states alike. *)
#[export] Hint Extern 1 (forall h h', forget h = forget h' -> ?g h = ?g h') =>
  (let H := fresh in intros ? ? H; exact (f_equal g H)) : alike.
#[export] Hint Extern 1 (forall h h', forget h = forget h' -> forget (?w h) = forget (?w h')) =>
  (let H := fresh in intros ? ? H; exact (f_equal w H)) : alike.
#[export] Hint Extern 2 (alike (match ?x with _ => _ end) _) => destruct x : alike.

Ltac alike_auto :=
  unfold handle, onclose, onerror, disconnect, unmount, connectTry,
    connectCatch, connectSession, cleanup, onmessage, resumed,
    handleInputTranscription, handleOutputTranscription, saveUserText,
    beforeDecode, afterDecode, handleTurnComplete, handleInterrupted, ended,
    audioprocess, onopen, sessionResolved;
  auto 80 with alike.

Lemma withoutPhoto_fields c1 c2 :
  withoutPhoto c1 = withoutPhoto c2 ->
  voiceName c1 = voiceName c2 /\ systemInstruction c1 = systemInstruction c2.
Proof.
  intros E. split;
    [exact (f_equal voiceName E) | exact (f_equal systemInstruction E)].
Qed.

(** [connect] reads the voice and the instruction of its argument, not the
    photo. *)
Lemma connectTry_photo env c1 c2 :
  withoutPhoto c1 = withoutPhoto c2 -> connectTry env c1 = connectTry env c2.
Proof.
  intros E. destruct (withoutPhoto_fields c1 c2 E) as (Hv & Hs).
  unfold connectTry, connectSession. now rewrite Hv, Hs.
Qed.

Lemma connectTry_alike env config : alike (connectTry env config) (connectTry env config).
Proof. alike_auto. Qed.

Lemma connect_alike env c1 c2 :
  withoutPhoto c1 = withoutPhoto c2 -> alike (connect env c1) (connect env c2).
Proof.
  intros E. unfold connect. rewrite (connectTry_photo env c1 c2 E).
  destruct (truthy (API_KEY env)); [|auto with alike].
  apply alike_seq; [now apply alike_set_config|].
  destruct (negb (mediaDevices env)); [auto with alike | apply connectTry_alike].
Qed.

Lemma handle_alike e : alike (handle e) (handle e).
Proof.
  destruct e as [env config| | |sess| |now m|ctx m| | | |node|fr];
    try (cbn [handle]; now apply connect_alike); alike_auto.
Qed.

Lemma run_alike events : alike (run events) (run events).
Proof.
  induction events as [|e rest IH]; cbn [run]; [apply alike_skip|].
  apply alike_seq; [apply handle_alike | exact IH].
Qed.

(** C10. The photo of the configuration is not observable.  For two
    configurations that differ at most in [photoContext], [connect] followed
    by any sequence of events makes the same calls — the connection request
    included — and ends in states that differ at most in the photo stored in
    [configRef]. *)
Theorem photoContext_unobservable (env : Environment) (c1 c2 : UseGeminiLiveConfig)
    (events : list Event) (h : Hook) :
  withoutPhoto c1 = withoutPhoto c2 ->
  snd (run (Connect env c1 :: events) h) = snd (run (Connect env c2 :: events) h) /\
  forget (fst (run (Connect env c1 :: events) h)) =
  forget (fst (run (Connect env c2 :: events) h)).
Proof.
  intros E.
  assert (A : alike (run (Connect env c1 :: events)) (run (Connect env c2 :: events))).
  { cbn [run handle]. apply alike_seq; [now apply connect_alike | apply run_alike]. }
  destruct (A h h eq_refl) as (Hs & Hl). now split.
Qed.

(** The application's configuration with and without a photo, over a short
    conversation. *)
Lemma photoContext_unobservable_witness :
  withoutPhoto photoConfig = withoutPhoto appConfig /\
  photoConfig <> appConfig /\
  snd (run (Connect goodEnvironment photoConfig :: conversation) initialHook) =
  snd (run (Connect goodEnvironment appConfig :: conversation) initialHook).
Proof.
  assert (E : withoutPhoto photoConfig = withoutPhoto appConfig) by reflexivity.
  destruct (photoContext_unobservable goodEnvironment photoConfig appConfig
              conversation initialHook E) as (Hl & _).
  split; [exact E|]. split; [discriminate | exact Hl].
Defined.

(** * Further properties of the hook *)

(** ** A message with audio and no output context *)

(** X1. Early return.  A message that carries audio while the output
    context ref is unset is cut short after the user turn is saved: nothing is
    scheduled, the cursor and the active set are as before, and the
    [turnComplete] and [interrupted] flags of the message are not handled:
    no AI turn is handed over, [onTurnComplete] and [onInterrupted] are not
    called, and the AI buffer keeps its text, chunk of the message
    included. *)
Theorem audio_without_context_is_cut (h : Hook) (now : Q) (m : LiveServerMessage)
    (b : AudioBuffer) :
  modelTurn m = Some b ->
  outputAudioContextRef h = None ->
  let out := onmessage now m h in
  starts (snd out) = [] /\
  aiTurns (snd out) = [] /\
  ~ In OnTurnComplete (snd out) /\ ~ In OnInterrupted (snd out) /\
  speaking (snd out) = [] /\
  currentAiTextRef (fst out) = (currentAiTextRef h ++ aiChunkOf m)%string /\
  audioSourcesRef (fst out) = audioSourcesRef h /\
  nextStartTimeRef (fst out) = nextStartTimeRef h.
Proof.
  intros Hm Hc out. unfold out. rewrite (onmessage_early now m b h Hm Hc).
  assert (S1 : silent startOf (prologue m ;; saveUserText)) by (unfold prologue; frame).
  assert (S2 : silent aiTurnOf (prologue m ;; saveUserText)) by (unfold prologue; frame).
  assert (S3 : silent speakingOf (prologue m ;; saveUserText)) by (unfold prologue; frame).
  assert (S4 : silent (fun c => match c with OnTurnComplete => [tt] | _ => [] end)
                 (prologue m ;; saveUserText)) by (unfold prologue; frame).
  assert (S5 : silent (fun c => match c with OnInterrupted => [tt] | _ => [] end)
                 (prologue m ;; saveUserText)) by (unfold prologue; frame).
  assert (K1 : keeps audioSourcesRef (prologue m ;; saveUserText))
    by (unfold prologue; frame).
  assert (K2 : keeps nextStartTimeRef (prologue m ;; saveUserText))
    by (unfold prologue; frame).
  assert (K3 : keeps currentAiTextRef saveUserText) by frame.
  repeat split.
  - apply S1.
  - apply S2.
  - apply (silent_not_In _ _ _ _ S4). discriminate.
  - apply (silent_not_In _ _ _ _ S5). discriminate.
  - apply S3.
  - rewrite fst_seq, K3. apply prologue_ai.
  - apply K1.
  - apply K2.
Qed.

(** After [disconnect], a message with audio, a last chunk and both flags:
    the chunk joins the buffer, nothing else happens. *)
Lemma audio_without_context_is_cut_witness :
  modelTurn lastWords = Some oneSecond /\
  outputAudioContextRef afterHours = None /\
  starts (snd (onmessage 10 lastWords afterHours)) = [] /\
  aiTurns (snd (onmessage 10 lastWords afterHours)) = [] /\
  currentAiTextRef (fst (onmessage 10 lastWords afterHours)) = "Goodbye".
Proof.
  assert (H1 : modelTurn lastWords = Some oneSecond) by reflexivity.
  assert (H2 : outputAudioContextRef afterHours = None) by (vm_compute; reflexivity).
  destruct (audio_without_context_is_cut afterHours 10 lastWords oneSecond H1 H2)
    as (Hs & Ht & _ & _ & _ & Hai & _).
  split; [exact H1|]. split; [exact H2|]. split; [exact Hs|]. split; [exact Ht|].
  rewrite Hai. vm_compute. reflexivity.
Defined.

(** ** The cursor moves forward *)

(** X3. The cursor only moves forward.  Over any sequence of events that
    contains no [connect], no [cleanup] and no interruption, and whose buffers
    have non-negative durations, the cursor at the end is not earlier than
    the cursor at the start. *)
Theorem cursor_moves_forward (events : list Event) : forall h : Hook,
  Forall forward events ->
  nextStartTimeRef h <= nextStartTimeRef (fst (run events h)).
Proof.
  induction events as [|e rest IH]; intros h Hall.
  - apply Qle_refl.
  - inversion Hall as [|e' l He Hrest]; subst.
    cbn [run]. rewrite fst_seq.
    apply Qle_trans with (nextStartTimeRef (fst (handle e h)));
      [now apply handle_forward | now apply IH].
Qed.

Lemma cursor_moves_forward_witness :
  Forall forward (deliver 1 twoChunks) /\
  nextStartTimeRef connected <=
  nextStartTimeRef (fst (run (deliver 1 twoChunks) connected)).
Proof.
  assert (H : Forall forward (deliver 1 twoChunks)).
  { repeat constructor; vm_compute; discriminate. }
  split; [exact H | exact (cursor_moves_forward (deliver 1 twoChunks) connected H)].
Defined.

(** ** Where a buffer is scheduled *)

(** Events that are no [connect] and no [cleanup] leave the output context
    and its analyser in place. *)
Lemma handle_keeps_connectable e ctx h :
  resets e = false -> connectable ctx (fst (handle e h)) = connectable ctx h.
Proof.
  intros He. apply connectable_same;
    (destruct e; try discriminate;
     match goal with |- ?get (fst (handle ?e h)) = _ =>
       assert (K : keeps get (handle e)) by frame_lifecycle; apply K end).
Qed.

Lemma onmessage_keeps_connectable now m ctx h :
  connectable ctx (fst (onmessage now m h)) = connectable ctx h.
Proof. exact (handle_keeps_connectable (OnMessage now m) ctx h eq_refl). Qed.

Lemma resumed_keeps_connectable ctx' m ctx h :
  connectable ctx (fst (resumed ctx' m h)) = connectable ctx h.
Proof. exact (handle_keeps_connectable (Decoded ctx' m) ctx h eq_refl). Qed.

(** X2. Where a source is started.  The invocation that resumes starts its
    source at the cursor as it is by then, which the call clamped to the
    clock before the [await].  If since the call no [connect], no [cleanup]
    and no interruption was handled (and no buffer had a negative duration),
    the source is not started before the clock the call read, nor before
    the cursor as it was at the call.  An interruption handled while the
    decoder runs resets the cursor: the source is then started at 0,
    whatever the clock was. *)
Theorem never_scheduled_in_the_past :
  (forall (h : Hook) (now : Q) (ctx : nat) (m : LiveServerMessage) (between : list Event)
          (node : nat) (t d : Q),
     modelTurn m <> None ->
     outputAudioContextRef h = Some ctx ->
     Forall forward between ->
     let resuming := fst (run (OnMessage now m :: between) h) in
     In (SourceStart node t d) (snd (resumed ctx m resuming)) ->
     t = nextStartTimeRef resuming /\ now <= t /\ nextStartTimeRef h <= t) /\
  (forall (h : Hook) (now now' : Q) (ctx : nat) (b : AudioBuffer),
     connectable ctx h = true ->
     starts (snd (run [OnMessage now (audioOnly b); OnMessage now' interruption;
                       Decoded ctx (audioOnly b)] h)) = [(0, duration b)]).
Proof.
  split.
  - intros h now ctx m between node t d Hm Hc Hall resuming Hin.
    apply starts_In in Hin.
    destruct (modelTurn m) as [b|] eqn:Eb; [|congruence].
    destruct (connectable ctx resuming) eqn:Hr.
    + rewrite (resumed_starts ctx m b resuming Eb Hr) in Hin.
      destruct Hin as [Hin|[]]. injection Hin as <- _.
      split; [reflexivity|].
      assert (Hle : Qmax (nextStartTimeRef h) now <= nextStartTimeRef resuming).
      { unfold resuming. cbn [run]. rewrite fst_seq. cbn [handle].
        rewrite <- (onmessage_clamps now m b ctx h Eb Hc). now apply run_forward. }
      split; [apply Qle_trans with (Qmax (nextStartTimeRef h) now); [apply Q.le_max_r | exact Hle]
             | apply Qle_trans with (Qmax (nextStartTimeRef h) now); [apply Q.le_max_l | exact Hle]].
    + rewrite resumed_no_start in Hin by (now right). destruct Hin.
  - intros h now now' ctx b Hc.
    cbn [run handle]. rewrite !snd_seq, !starts_app. cbn [skip snd starts flat_map].
    rewrite app_nil_r.
    pose proof (onmessage_no_start now (audioOnly b) h) as S1.
    fold (starts (snd (onmessage now (audioOnly b) h))) in S1. rewrite S1, app_nil_l.
    set (h1 := fst (onmessage now (audioOnly b) h)).
    pose proof (onmessage_no_start now' interruption h1) as S2.
    fold (starts (snd (onmessage now' interruption h1))) in S2. rewrite S2, app_nil_l.
    set (h2 := fst (onmessage now' interruption h1)).
    assert (Hc2 : connectable ctx h2 = true).
    { unfold h2, h1. now rewrite !onmessage_keeps_connectable. }
    rewrite (resumed_starts ctx (audioOnly b) b h2 eq_refl Hc2).
    assert (Hz : nextStartTimeRef h2 = 0).
    { unfold h2. rewrite (onmessage_no_audio now' interruption h1 eq_refl). unfold flagsOf.
      rewrite <- seq_assoc, fst_seq.
      now destruct (handleInterrupted_on interruption
                      (fst ((prologue interruption ;; handleTurnComplete interruption) h1))
                      eq_refl) as (_ & _ & -> & _). }
    now rewrite Hz.
Qed.

(** The first chunk of the open session starts at the clock. *)
Lemma never_scheduled_in_the_past_witness :
  modelTurn (audioOnly oneSecond) <> None /\
  outputAudioContextRef connected = Some 1%nat /\
  Forall forward [OnMessage (7 # 2) (aiText "Hello.")] /\
  In (SourceStart 5 (7 # 2) 1)
    (snd (resumed 1 (audioOnly oneSecond)
            (fst (run (OnMessage (7 # 2) (audioOnly oneSecond) ::
                       [OnMessage (7 # 2) (aiText "Hello.")]) connected)))) /\
  7 # 2 <= 7 # 2.
Proof.
  assert (H1 : modelTurn (audioOnly oneSecond) <> None) by discriminate.
  assert (H2 : outputAudioContextRef connected = Some 1%nat) by (vm_compute; reflexivity).
  assert (H3 : Forall forward [OnMessage (7 # 2) (aiText "Hello.")]).
  { repeat constructor; vm_compute; discriminate. }
  assert (H4 : In (SourceStart 5 (7 # 2) 1)
                 (snd (resumed 1 (audioOnly oneSecond)
                         (fst (run (OnMessage (7 # 2) (audioOnly oneSecond) ::
                                    [OnMessage (7 # 2) (aiText "Hello.")]) connected)))))
    by (vm_compute; left; reflexivity).
  destruct never_scheduled_in_the_past as (Hn & _).
  destruct (Hn connected (7 # 2) 1%nat (audioOnly oneSecond)
              [OnMessage (7 # 2) (aiText "Hello.")] 5%nat (7 # 2) 1 H1 H2 H3 H4)
    as (_ & Hle & _).
  split; [exact H1|]. split; [exact H2|]. split; [exact H3|]. split; [exact H4 | exact Hle].
Defined.

(** ** Decodes in flight *)

(** A second chunk comes while the first is still being decoded, and the two
    invocations then resume in order: the two buffers are scheduled back to
    back, the second where the first ends. *)
Lemma decodes_in_flight now1 now2 m1 m2 b1 b2 ctx h :
  modelTurn m1 = Some b1 -> modelTurn m2 = Some b2 ->
  interrupted m1 = false ->
  connectable ctx h = true ->
  let start1 := Qmax (Qmax (nextStartTimeRef h) now1) now2 in
  starts (snd (run [OnMessage now1 m1; OnMessage now2 m2; Decoded ctx m1; Decoded ctx m2] h)) =
  [(start1, duration b1); (start1 + duration b1, duration b2)].
Proof.
  intros Hm1 Hm2 Hi Hc start1.
  pose proof Hc as Hc0. apply connectable_iff in Hc0. destruct Hc0 as (Hctx & _).
  cbn [run handle]. rewrite !snd_seq, !starts_app.
  cbn [skip snd starts flat_map]. rewrite app_nil_r.
  pose proof (onmessage_no_start now1 m1 h) as S1.
  fold (starts (snd (onmessage now1 m1 h))) in S1. rewrite S1, app_nil_l.
  set (h1 := fst (onmessage now1 m1 h)).
  pose proof (onmessage_no_start now2 m2 h1) as S2.
  fold (starts (snd (onmessage now2 m2 h1))) in S2. rewrite S2, app_nil_l.
  set (h2 := fst (onmessage now2 m2 h1)).
  assert (Hc1 : connectable ctx h1 = true).
  { unfold h1. now rewrite onmessage_keeps_connectable. }
  assert (Hc2 : connectable ctx h2 = true).
  { unfold h2. now rewrite onmessage_keeps_connectable. }
  assert (Hc3 : connectable ctx (fst (resumed ctx m1 h2)) = true).
  { now rewrite resumed_keeps_connectable. }
  rewrite (resumed_starts ctx m1 b1 h2 Hm1 Hc2).
  rewrite (resumed_starts ctx m2 b2 _ Hm2 Hc3).
  rewrite (resumed_cursor ctx m1 b1 h2 Hm1 Hi Hc2).
  pose proof Hc1 as Hc1'. apply connectable_iff in Hc1'. destruct Hc1' as (Hctx1 & _).
  unfold h2. rewrite (onmessage_clamps now2 m2 b2 ctx h1 Hm2 Hctx1).
  unfold h1. rewrite (onmessage_clamps now1 m1 b1 ctx h Hm1 Hctx).
  reflexivity.
Qed.

(** ** No overlap *)

(** X15. No two buffers overlap, however the decoders interleave.  Over any
    sequence of events that contains no [connect], no [cleanup] and no
    interruption, and whose buffers have non-negative durations — calls of
    [onmessage], invocations that resume in any order and at any later
    time, decoders that fail, ends of sources, capture frames — no buffer is
    started before the buffer started before it ends; every buffer starts at
    or after the cursor as it was at the start and ends by the cursor as it
    is at the end. *)
Theorem playback_never_overlaps (events : list Event) (h : Hook) :
  Forall forward events ->
  chained (starts (snd (run events h))) /\
  Forall (fun sd => nextStartTimeRef h <= fst sd /\
                    fst sd + snd sd <= nextStartTimeRef (fst (run events h)))
    (starts (snd (run events h))).
Proof.
  revert h.
  induction events as [|e rest IH]; intros h Hall.
  - split; [exact I | constructor].
  - inversion Hall as [|e' l He Hrest]; subst.
    cbn [run]. rewrite snd_seq, fst_seq, starts_app.
    set (h1 := fst (handle e h)).
    destruct (IH h1 Hrest) as (IHc & IHa).
    assert (Hend : nextStartTimeRef h1 <= nextStartTimeRef (fst (run rest h1)))
      by now apply run_forward.
    destruct (handle_schedule e h He) as [(Hs & Hle) | (d & Hd & Hs & Hcur)];
      fold h1 in Hle || fold h1 in Hcur; rewrite Hs.
    + cbn [app]. split; [exact IHc|].
      eapply Forall_impl; [|exact IHa]. intros [s' d'] (H1 & H2). cbn [fst snd] in *.
      split; [apply Qle_trans with (nextStartTimeRef h1); assumption | exact H2].
    + cbn [app]. split.
      * apply chained_cons; [exact IHc|].
        eapply Forall_impl; [|exact IHa]. intros [s' d'] (H1 & _). cbn [fst] in *.
        now rewrite <- Hcur.
      * constructor.
        -- cbn [fst snd]. split; [apply Qle_refl | now rewrite <- Hcur].
        -- eapply Forall_impl; [|exact IHa]. intros [s' d'] (H1 & H2). cbn [fst snd] in *.
           split; [|exact H2].
           apply Qle_trans with (nextStartTimeRef h1); [|exact H1].
           rewrite Hcur. now apply Qle_plus_nonneg.
Qed.

(** Three chunks come before the first is decoded; the decoder of the second
    fails, the third resumes before the first. *)
Lemma playback_never_overlaps_witness :
  Forall forward outOfOrder /\
  starts (snd (run outOfOrder connected)) = [(2, 1); (3, 1)] /\
  chained (starts (snd (run outOfOrder connected))).
Proof.
  assert (H : Forall forward outOfOrder).
  { repeat constructor; vm_compute; discriminate. }
  destruct (playback_never_overlaps outOfOrder connected H) as (Hc & _).
  split; [exact H|]. split; [vm_compute; reflexivity | exact Hc].
Defined.

(** ** Speaking notifications *)

Lemma beforeDecode_speaking now h :
  hasA onSpeakingStateChange (configRef h) = true ->
  speaking (snd (beforeDecode now h)) =
  match audioSourcesRef h with [] => [true] | _ => [] end.
Proof.
  destruct h as [c1 c2 er ic oc ia oa t srcs sp cs ut at_ cfg oap n].
  cbn [configRef audioSourcesRef]. intros Hcb.
  unfold beforeDecode. destruct srcs; act; cbn [List.length Nat.eqb];
    rewrite ?Hcb; reflexivity.
Qed.

Lemma handleInterrupted_speaking m h :
  hasA onSpeakingStateChange (configRef h) = true ->
  speaking (snd (handleInterrupted m h)) = if interrupted m then [false] else [].
Proof.
  destruct h as [c1 c2 er ic oc ia oa t srcs sp cs ut at_ cfg oap n].
  cbn [configRef]. intros Hcb.
  assert (Hstop : speaking (map SourceStop srcs) = []).
  { induction srcs as [|x l IH]; [reflexivity | exact IH]. }
  unfold handleInterrupted. destruct (interrupted m); act; [|reflexivity].
  destruct (hasT onInterrupted cfg); act; rewrite Hcb; act;
    unfold speaking in *; rewrite flat_map_app, Hstop; reflexivity.
Qed.

Lemma flagsOf_speaking m h :
  hasA onSpeakingStateChange (configRef h) = true ->
  speaking (snd (flagsOf m h)) = if interrupted m then [false] else [].
Proof.
  intros Hcb. unfold flagsOf.
  assert (St : silent speakingOf (handleTurnComplete m)) by frame.
  assert (Ktc : keeps configRef (handleTurnComplete m)) by frame.
  rewrite snd_seq. unfold speaking. rewrite flat_map_app, St, app_nil_l.
  apply handleInterrupted_speaking. now rewrite Ktc.
Qed.

Lemma onmessage_speaking now m h :
  hasA onSpeakingStateChange (configRef h) = true ->
  modelTurn m = None \/ outputAudioContextRef h <> None ->
  speaking (snd (onmessage now m h)) =
  match modelTurn m with
  | Some _ => match audioSourcesRef h with [] => [true] | _ => [] end
  | None => if interrupted m then [false] else []
  end.
Proof.
  intros Hcb Hr.
  assert (Sp : silent speakingOf (prologue m)) by (unfold prologue; frame).
  assert (Kpc : keeps configRef (prologue m)) by (unfold prologue; frame).
  assert (Kps : keeps audioSourcesRef (prologue m)) by (unfold prologue; frame).
  destruct (modelTurn m) as [b|] eqn:Hm.
  - destruct Hr as [Hr|Hr]; [discriminate|].
    destruct (outputAudioContextRef h) as [ctx|] eqn:Hc; [|congruence].
    rewrite (onmessage_suspended now m b ctx h Hm Hc).
    assert (Ss : silent speakingOf saveUserText) by frame.
    assert (Ksc : keeps configRef saveUserText) by frame.
    assert (Kss : keeps audioSourcesRef saveUserText) by frame.
    rewrite !snd_seq. unfold speaking. rewrite !flat_map_app, Sp, Ss, !app_nil_l.
    fold (speaking (snd (beforeDecode now (fst (saveUserText (fst (prologue m h))))))).
    rewrite beforeDecode_speaking by (now rewrite Ksc, Kpc).
    now rewrite Kss, Kps.
  - rewrite (onmessage_no_audio now m h Hm), snd_seq.
    unfold speaking. rewrite flat_map_app, Sp, app_nil_l.
    apply flagsOf_speaking. now rewrite Kpc.
Qed.

Lemma resumed_speaking ctx m h :
  hasA onSpeakingStateChange (configRef h) = true ->
  modelTurn m <> None -> connectable ctx h = true ->
  speaking (snd (resumed ctx m h)) = if interrupted m then [false] else [].
Proof.
  intros Hcb Hm Hc. destruct (modelTurn m) as [b|] eqn:Eb; [|congruence].
  rewrite (resumed_on ctx m b h Eb Hc).
  assert (Sa : silent speakingOf (afterDecode b)) by frame.
  assert (Ka : keeps configRef (afterDecode b)) by frame.
  rewrite snd_seq. unfold speaking. rewrite flat_map_app, Sa, app_nil_l.
  apply flagsOf_speaking. now rewrite Ka.
Qed.

(** X4. When the speaking state is notified.  With [onSpeakingStateChange]
    defined: a call of [onmessage] that does not return early notifies [true]
    exactly when the message carries audio and the active set is empty; the
    handling of the flags notifies [false] exactly when the message has the
    [interrupted] flag — in the call for a message without audio, in the
    invocation that resumes for a message with audio.  So a message that is
    handled to its end before anything else happens notifies [true] exactly
    when it carries audio and the active set was empty when it came, then
    [false] exactly when it has the [interrupted] flag; it makes no other
    speaking notification. *)
Theorem speaking_notifications (h : Hook) (now : Q) (ctx : nat) (m : LiveServerMessage) :
  hasA onSpeakingStateChange (configRef h) = true ->
  modelTurn m = None \/ (outputAudioContextRef h = Some ctx /\ outputAnalyserRef h <> None) ->
  speaking (snd (run [OnMessage now m; Decoded ctx m] h)) =
  match modelTurn m, audioSourcesRef h with
  | Some _, [] => [true]
  | _, _ => []
  end ++ (if interrupted m then [false] else []) /\
  speaking (snd (onmessage now m h)) =
  match modelTurn m with
  | Some _ => match audioSourcesRef h with [] => [true] | _ => [] end
  | None => if interrupted m then [false] else []
  end /\
  speaking (snd (resumed ctx m (fst (onmessage now m h)))) =
  match modelTurn m with
  | Some _ => if interrupted m then [false] else []
  | None => []
  end.
Proof.
  intros Hcb Hr.
  assert (Hr' : modelTurn m = None \/ outputAudioContextRef h <> None).
  { destruct Hr as [Hr|(Hr & _)]; [now left | right; congruence]. }
  pose proof (onmessage_speaking now m h Hcb Hr') as Hcall.
  assert (Hres : speaking (snd (resumed ctx m (fst (onmessage now m h)))) =
                 match modelTurn m with
                 | Some _ => if interrupted m then [false] else []
                 | None => []
                 end).
  { destruct (modelTurn m) as [b|] eqn:Hm.
    - destruct Hr as [Hr|Hr]; [discriminate|].
      assert (Kc : keeps configRef (onmessage now m)) by frame.
      apply resumed_speaking; [now rewrite Kc | congruence |].
      rewrite onmessage_keeps_connectable. now apply connectable_iff.
    - now rewrite resumed_none. }
  split; [|split; [exact Hcall | exact Hres]].
  rewrite run_pair. cbn [handle]. rewrite snd_seq.
  unfold speaking in *. rewrite flat_map_app, Hcall, Hres.
  destruct (modelTurn m); [reflexivity|].
  rewrite app_nil_r. now destruct (audioSourcesRef h).
Qed.

Lemma speaking_notifications_witness :
  hasA onSpeakingStateChange (configRef connected) = true /\
  (modelTurn (audioOnly oneSecond) = None \/
   (outputAudioContextRef connected = Some 1%nat /\ outputAnalyserRef connected <> None)) /\
  speaking (snd (run [OnMessage 0 (audioOnly oneSecond); Decoded 1 (audioOnly oneSecond)]
                   connected)) = [true] /\
  speaking (snd (run [OnMessage 1 (audioOnly oneSecond); Decoded 1 (audioOnly oneSecond)]
                   (fst (run [OnMessage 0 (audioOnly oneSecond);
                              Decoded 1 (audioOnly oneSecond)] connected)))) = [].
Proof.
  assert (H1 : hasA onSpeakingStateChange (configRef connected) = true) by reflexivity.
  assert (H2 : modelTurn (audioOnly oneSecond) = None \/
               (outputAudioContextRef connected = Some 1%nat /\
                outputAnalyserRef connected <> None)).
  { right. split; [vm_compute; reflexivity | vm_compute; discriminate]. }
  split; [exact H1|]. split; [exact H2|]. split.
  - destruct (speaking_notifications connected 0 1%nat (audioOnly oneSecond) H1 H2)
      as (Hs & _). rewrite Hs. vm_compute. reflexivity.
  - vm_compute. reflexivity.
Defined.

(** ** The end of a source *)

Lemma setDelete_In x node l : In x (setDelete node l) <-> In x l /\ x <> node.
Proof.
  unfold setDelete. rewrite filter_In. split; intros (Hin & Hne); split; try exact Hin.
  - intros ->. now rewrite Nat.eqb_refl in Hne.
  - apply negb_true_iff, Nat.eqb_neq. congruence.
Qed.

Lemma ended_eq node h :
  ended node h =
  (set_audioSourcesRef (setDelete node (audioSourcesRef h)) h,
   match setDelete node (audioSourcesRef h) with
   | [] => if hasA onSpeakingStateChange (configRef h)
           then [OnSpeakingStateChange false] else []
   | _ => []
   end).
Proof.
  destruct h as [c1 c2 er ic oc ia oa t srcs sp cs ut at_ cfg oap n].
  unfold ended. act. cbn [audioSourcesRef configRef].
  destruct (setDelete node srcs); cbn [List.length Nat.eqb];
    [now destruct (hasA onSpeakingStateChange cfg) | reflexivity].
Qed.

(** X5. The end of a source.  The listener of ['ended'] removes its source
    from the active set and nothing else; with [onSpeakingStateChange]
    defined it notifies [false] exactly when the set is empty afterwards.
    So the end of a source that is no longer in the set (an interruption
    cleared the set) notifies [false] again, once per such source, and
    changes nothing. *)
Theorem ended_notifies (h : Hook) (node : nat) :
  hasA onSpeakingStateChange (configRef h) = true ->
  (forall x, In x (audioSourcesRef (fst (ended node h))) <->
             In x (audioSourcesRef h) /\ x <> node) /\
  speaking (snd (ended node h)) =
    match setDelete node (audioSourcesRef h) with [] => [false] | _ => [] end /\
  (audioSourcesRef h = [] -> ended node h = (h, [OnSpeakingStateChange false])).
Proof.
  intros Hcb. rewrite ended_eq, Hcb. cbn [fst snd]. split; [|split].
  - intro x. apply setDelete_In.
  - now destruct (setDelete node (audioSourcesRef h)).
  - intros He. rewrite He. cbn [setDelete filter]. f_equal.
    destruct h as [c1 c2 er ic oc ia oa t srcs sp cs ut at_ cfg oap n].
    cbn in He. now subst srcs.
Qed.

(** Two sources were stopped by an interruption, which notified [false];
    the end of each of them notifies [false] once more. *)
Lemma ended_notifies_witness :
  hasA onSpeakingStateChange (configRef interruptedHook) = true /\
  audioSourcesRef interruptedHook = [] /\
  speaking (snd (run [Ended 5; Ended 6] interruptedHook)) = [false; false].
Proof.
  assert (H1 : hasA onSpeakingStateChange (configRef interruptedHook) = true)
    by (vm_compute; reflexivity).
  assert (H2 : audioSourcesRef interruptedHook = []) by (vm_compute; reflexivity).
  destruct (ended_notifies interruptedHook 5 H1) as (_ & _ & H5).
  destruct (ended_notifies interruptedHook 6 H1) as (_ & _ & H6).
  split; [exact H1|]. split; [exact H2|].
  cbn [run handle]. rewrite !seq_eq. rewrite (H5 H2). cbn [fst snd].
  rewrite (H6 H2). reflexivity.
Defined.

(** ** Chunk callbacks *)

Lemma prologue_chunk_calls m h :
  (hasT onUserTranscriptionChunk (configRef h) = true ->
   flat_map userChunkCallOf (snd (prologue m h)) = chunkList (inputTranscription m)) /\
  (hasT onAiTranscriptionChunk (configRef h) = true ->
   flat_map aiChunkCallOf (snd (prologue m h)) = chunkList (outputTranscription m)).
Proof.
  destruct h as [c1 c2 er ic oc ia oa t srcs sp cs ut at_ cfg oap n].
  cbn [configRef].
  unfold prologue, handleInputTranscription, handleOutputTranscription, chunkList.
  split; intros Hcb;
    destruct (truthy (inputTranscription m)), (truthy (outputTranscription m));
    repeat (act; rewrite ?Hcb;
            try match goal with |- context [if ?c then _ else _] => destruct c end);
    reflexivity.
Qed.

Lemma tailOf_no_chunk_call now m :
  silent userChunkCallOf (tailOf now m) /\ silent aiChunkCallOf (tailOf now m).
Proof. split; unfold tailOf; frame. Qed.

Lemma handle_chunk_calls e h :
  isConnect e = false ->
  (hasT onUserTranscriptionChunk (configRef h) = true ->
   flat_map userChunkCallOf (snd (handle e h)) = userChunksOf e) /\
  (hasT onAiTranscriptionChunk (configRef h) = true ->
   flat_map aiChunkCallOf (snd (handle e h)) = aiChunksOf e).
Proof.
  intros He.
  destruct e as [env config| | |sess| |now m|ctx m| | | |node|fr]; try discriminate;
    cbn [userChunksOf aiChunksOf];
    try (split; intros _;
         match goal with |- flat_map ?f (snd (handle ?e h)) = [] =>
           assert (S : silent f (handle e)) by frame_lifecycle; apply S end).
  cbn [handle]. rewrite onmessage_split, snd_seq.
  destruct (prologue_chunk_calls m h) as (Hu & Ha).
  destruct (tailOf_no_chunk_call now m) as (Su & Sa).
  split; intros Hcb; rewrite flat_map_app.
  - now rewrite Su, app_nil_r, Hu.
  - now rewrite Sa, app_nil_r, Ha.
Qed.

(** X6. Chunks are relayed once.  Over any sequence of events without a
    [connect], with the chunk callback of a channel defined, the texts passed
    to that callback are the non-empty transcription chunks of the messages,
    each once and in order of arrival; an empty chunk is not passed. *)
Theorem chunks_relayed_once (events : list Event) : forall h : Hook,
  forallb (fun e => negb (isConnect e)) events = true ->
  (hasT onUserTranscriptionChunk (configRef h) = true ->
   flat_map userChunkCallOf (snd (run events h)) = flat_map userChunksOf events) /\
  (hasT onAiTranscriptionChunk (configRef h) = true ->
   flat_map aiChunkCallOf (snd (run events h)) = flat_map aiChunksOf events).
Proof.
  induction events as [|e rest IH]; intros h Hall; [now split|].
  cbn [forallb] in Hall. apply andb_true_iff in Hall as (He & Hrest).
  apply negb_true_iff in He.
  destruct (handle_chunk_calls e h He) as (Hu & Ha).
  assert (Kc : configRef (fst (handle e h)) = configRef h).
  { apply handle_keeps_config. intros env config ->. discriminate. }
  destruct (IH (fst (handle e h)) Hrest) as (IHu & IHa). rewrite Kc in IHu, IHa.
  cbn [run flat_map]. rewrite snd_seq, !flat_map_app.
  split; intros Hcb.
  - now rewrite (Hu Hcb), (IHu Hcb).
  - now rewrite (Ha Hcb), (IHa Hcb).
Qed.

Lemma chunks_relayed_once_witness :
  forallb (fun e => negb (isConnect e)) twoTurns = true /\
  hasT onAiTranscriptionChunk (configRef connected) = true /\
  flat_map aiChunkCallOf (snd (run twoTurns connected)) = ["Hello, "; "world."; "And th"].
Proof.
  destruct (chunks_relayed_once twoTurns connected eq_refl) as (_ & Ha).
  split; [reflexivity|]. split; [reflexivity|].
  exact (Ha eq_refl).
Defined.

(** ** Frames while the channel is open *)

Lemma handle_stays_open e promise h :
  staysOpen e = true ->
  onaudioprocess h = true -> sessionPromiseRef h = Some promise ->
  onaudioprocess (fst (handle e h)) = true /\
  sessionPromiseRef (fst (handle e h)) = Some promise /\
  flat_map forwardedBy (snd (handle e h)) = map (pair promise) (framesOf e).
Proof.
  intros He Hg Hp.
  destruct e as [env config| | |sess| |now m|ctx m| | | |node|fr]; try discriminate;
    cbn [handle framesOf map].
  - assert (K1 : keeps onaudioprocess (sessionResolved sess)) by frame.
    assert (K2 : keeps sessionPromiseRef (sessionResolved sess)) by frame.
    assert (S : silent forwardedBy (sessionResolved sess)) by frame.
    now rewrite K1, K2, S.
  - assert (K2 : keeps sessionPromiseRef onopen) by frame.
    assert (S : silent forwardedBy onopen) by frame.
    rewrite K2, S. repeat split. exact Hp.
  - assert (K1 : keeps onaudioprocess (onmessage now m)) by frame.
    assert (K2 : keeps sessionPromiseRef (onmessage now m)) by frame.
    assert (S : silent forwardedBy (onmessage now m)) by frame.
    now rewrite K1, K2, S.
  - assert (K1 : keeps onaudioprocess (resumed ctx m)) by frame.
    assert (K2 : keeps sessionPromiseRef (resumed ctx m)) by frame.
    assert (S : silent forwardedBy (resumed ctx m)) by frame.
    now rewrite K1, K2, S.
  - cbn. now repeat split.
  - assert (K1 : keeps onaudioprocess (ended node)) by frame.
    assert (K2 : keeps sessionPromiseRef (ended node)) by frame.
    assert (S : silent forwardedBy (ended node)) by frame.
    now rewrite K1, K2, S.
  - rewrite (audioprocess_forwards fr promise h Hg Hp). now cbn.
Qed.

(** X7. No frame is lost while the channel is open.  Once the handler is
    installed and [sessionPromiseRef] holds a promise, over any sequence of
    events without a [connect] or a [cleanup], every capture frame is
    attached to that promise for sending, once and in order, and nothing else
    is. *)
Theorem frames_forwarded_while_open (events : list Event) : forall (h : Hook) (promise : nat),
  onaudioprocess h = true ->
  sessionPromiseRef h = Some promise ->
  forallb staysOpen events = true ->
  flat_map forwardedBy (snd (run events h)) = map (pair promise) (flat_map framesOf events).
Proof.
  induction events as [|e rest IH]; intros h promise Hg Hp Hall; [reflexivity|].
  cbn [forallb] in Hall. apply andb_true_iff in Hall as (He & Hrest).
  destruct (handle_stays_open e promise h He Hg Hp) as (Hg' & Hp' & Hl).
  cbn [run flat_map]. rewrite snd_seq, flat_map_app, map_app, Hl.
  now rewrite (IH _ promise Hg' Hp' Hrest).
Qed.

Lemma frames_forwarded_while_open_witness :
  onaudioprocess connected = true /\
  sessionPromiseRef connected = Some 4%nat /\
  flat_map forwardedBy
    (snd (run [AudioProcess 1; OnMessage 0 (audioOnly oneSecond); AudioProcess 2;
               Decoded 1 (audioOnly oneSecond); Ended 5; AudioProcess 3] connected)) =
  [(4%nat, 1%nat); (4%nat, 2%nat); (4%nat, 3%nat)].
Proof.
  split; [reflexivity|]. split; [reflexivity|].
  exact (frames_forwarded_while_open
           [AudioProcess 1; OnMessage 0 (audioOnly oneSecond); AudioProcess 2;
            Decoded 1 (audioOnly oneSecond); Ended 5; AudioProcess 3]
           connected 4%nat eq_refl eq_refl eq_refl).
Defined.

(** ** A session that resolves after [cleanup] *)

Lemma cleanup_closed h :
  flat_map closedBy (snd (cleanup h)) =
  match currentSessionRef h with
  | Some session => if hasClose session then [sessionId session] else []
  | None => []
  end.
Proof.
  rewrite cleanup_calls, !flat_map_app.
  assert (Hstop : flat_map closedBy (map SourceStop (audioSourcesRef h)) = []).
  { induction (audioSourcesRef h) as [|x l IH]; [reflexivity | exact IH]. }
  rewrite Hstop.
  destruct (inputAudioContextRef h), (outputAudioContextRef h),
    (currentSessionRef h) as [[sid [|]]|]; reflexivity.
Qed.

(** X8. A [disconnect] before the session promise resolves does not close
    the session.  From a hook that holds no session, a granted [connect]
    followed by [disconnect] closes no session; when the promise resolves
    afterwards the session object is stored in [currentSessionRef] of a hook
    that is otherwise idle, still unclosed; only a further [cleanup] closes
    it. *)
Theorem late_session_is_left_open (env : Environment) (config : UseGeminiLiveConfig)
    (stream : nat) (h : Hook) (session : Session) :
  granted env stream ->
  currentSessionRef h = None ->
  hasClose session = true ->
  let out := run [Connect env config; Disconnect; SessionResolved session] h in
  flat_map closedBy (snd out) = [] /\
  currentSessionRef (fst out) = Some session /\
  sessionPromiseRef (fst out) = None /\
  isConnected (fst out) = false /\ isConnecting (fst out) = false /\
  flat_map closedBy (snd (disconnect (fst out))) = [sessionId session].
Proof.
  intros Hg Hs Hc out.
  assert (E : out =
    (set_currentSessionRef (Some session) (fst (cleanup (fst (connect env config h)))),
     snd (connect env config h) ++ snd (cleanup (fst (connect env config h))))).
  { unfold out. cbn [run handle]. unfold disconnect, sessionResolved.
    rewrite seq_eq, seq_eq, seq_eq. cbn [fst snd skip write app].
    now rewrite app_nil_r. }
  rewrite E. cbn [fst snd]. clear E out.
  set (h1 := fst (connect env config h)).
  assert (H1 : currentSessionRef h1 = None).
  { unfold h1. now rewrite (connect_granted env config stream h Hg). }
  destruct (cleanup_idle h1) as (_ & _ & _ & _ & _ & _ & I7 & _ & _ & _ & I11 & I12).
  split; [|split; [|split; [|split; [|split]]]].
  - rewrite flat_map_app, cleanup_closed, H1, app_nil_r.
    rewrite (connect_granted env config stream h Hg). reflexivity.
  - reflexivity.
  - exact I7.
  - exact I11.
  - exact I12.
  - unfold disconnect. rewrite cleanup_closed. cbn [currentSessionRef set_currentSessionRef].
    now rewrite Hc.
Qed.

Lemma late_session_is_left_open_witness :
  granted goodEnvironment 100 /\
  currentSessionRef initialHook = None /\
  hasClose theSession = true /\
  currentSessionRef
    (fst (run [Connect goodEnvironment appConfig; Disconnect; SessionResolved theSession]
            initialHook)) = Some theSession /\
  flat_map closedBy
    (snd (run [Connect goodEnvironment appConfig; Disconnect; SessionResolved theSession]
            initialHook)) = [].
Proof.
  destruct (late_session_is_left_open goodEnvironment appConfig 100%nat initialHook
              theSession good_environment_granted eq_refl eq_refl) as (Hl & Hs & _).
  split; [exact good_environment_granted|]. split; [reflexivity|].
  split; [reflexivity|]. split; [exact Hs | exact Hl].
Defined.

(** ** The error slot *)

Lemma handle_keeps_error e h :
  keepsError e = true -> error (fst (handle e h)) = error h.
Proof.
  intros He.
  destruct e as [env config| | |sess| |now m|ctx m| | | |node|fr]; try discriminate;
    match goal with |- error (fst (handle ?e h)) = _ =>
      assert (K : keeps error (handle e)) by frame_lifecycle; apply K end.
Qed.

Lemma run_keeps_error events : forall h,
  forallb keepsError events = true -> error (fst (run events h)) = error h.
Proof.
  induction events as [|e rest IH]; intros h Hall; [reflexivity|].
  cbn [forallb] in Hall. apply andb_true_iff in Hall as (He & Hrest).
  cbn [run]. rewrite fst_seq, IH by exact Hrest. now apply handle_keeps_error.
Qed.

(** X9. The error slot.  Only [connect] and the [onerror] callback write the
    error: over any sequence of other events — [disconnect], remote close,
    unmount and messages included — it keeps its value.  So the message set
    by a channel error is still there after the cleanup that follows and
    after any later [disconnect]; a granted [connect] clears it. *)
Theorem error_outlives_cleanup :
  (forall events h,
     forallb keepsError events = true -> error (fst (run events h)) = error h) /\
  (forall events h,
     forallb keepsError events = true ->
     error (fst (run (OnError :: events) h)) = Some connectionError) /\
  (forall env config stream h,
     granted env stream -> error (fst (connect env config h)) = None).
Proof.
  split; [exact run_keeps_error | split].
  - intros events h Hall. cbn [run]. rewrite fst_seq, run_keeps_error by exact Hall.
    cbn [handle]. rewrite onerror_eq.
    match goal with |- error (fst (cleanup ?s)) = _ =>
      now destruct (cleanup_keeps s) as (-> & _) end.
  - intros env config stream h Hg.
    now rewrite (connect_granted env config stream h Hg).
Qed.

Lemma error_outlives_cleanup_witness :
  forallb keepsError [Disconnect; OnMessage 0 (aiText "late"); Unmount] = true /\
  error (fst (run (OnError :: [Disconnect; OnMessage 0 (aiText "late"); Unmount]) connected)) =
    Some "Connection error occurred.".
Proof.
  destruct error_outlives_cleanup as (_ & He & _).
  split; [reflexivity|].
  exact (He [Disconnect; OnMessage 0 (aiText "late"); Unmount] connected eq_refl).
Defined.

(** ** The audio refs go together *)

Lemma idle_paired h : idle h -> paired h.
Proof.
  intros (I1 & I2 & I3 & I4 & I5 & _ & _ & _ & _ & I10 & _).
  split; [intros _; now repeat split | intros H; congruence].
Qed.

Lemma paired_of_same_refs h h' :
  inputAudioContextRef h' = inputAudioContextRef h ->
  outputAudioContextRef h' = outputAudioContextRef h ->
  inputAnalyserRef h' = inputAnalyserRef h ->
  outputAnalyserRef h' = outputAnalyserRef h ->
  (outputAudioContextRef h = None ->
   audioSourcesRef h = [] -> nextStartTimeRef h = 0 ->
   audioSourcesRef h' = [] /\ nextStartTimeRef h' = 0) ->
  paired h -> paired h'.
Proof.
  intros E1 E2 E3 E4 Hs (P1 & P2). split.
  - rewrite E1, E2, E3, E4. intros Hc.
    destruct (P1 Hc) as (Q1 & Q2 & Q3 & Q4 & Q5).
    destruct (Hs Hc Q4 Q5) as (R1 & R2). now repeat split.
  - rewrite E1, E2, E3, E4. exact P2.
Qed.

Lemma connect_paired env config h : paired h -> paired (fst (connect env config h)).
Proof.
  intros Hp. unfold connect.
  destruct (truthy (API_KEY env)) eqn:Hk.
  - rewrite write_seq. destruct (mediaDevices env) eqn:Hm; cbn [negb].
    + destruct (AudioContextClass env) eqn:Ha.
      * destruct (getUserMedia env) as [stream|err] eqn:Hg.
        -- assert (G : granted env stream) by (repeat split; congruence).
           pose proof (connect_granted env config stream h G) as E.
           unfold connect in E. rewrite Hk, Hm, write_seq in E. cbn [negb] in E.
           cbv zeta in E. rewrite E. cbn [fst].
           split; [intros H; discriminate | intros _; repeat split; discriminate].
        -- assert (Hk' : truthy (API_KEY env) <> None) by congruence.
           destruct (connect_rejected env config err h Hk' Hm Ha Hg) as (_ & E).
           unfold connect in E. rewrite Hk, Hm, write_seq in E. cbn [negb] in E.
           rewrite E. apply idle_paired, cleanup_idle.
      * assert (Hk' : truthy (API_KEY env) <> None) by congruence.
        pose proof (connect_no_web_audio env config h Hk' Hm Ha) as E.
        unfold connect in E. rewrite Hk, Hm, write_seq in E. cbn [negb] in E.
        rewrite E, connectCatch_eq. apply idle_paired, cleanup_idle.
    + now apply (paired_of_same_refs h).
  - now apply (paired_of_same_refs h).
Qed.

Lemma handleInterrupted_timeline m h :
  (audioSourcesRef (fst (handleInterrupted m h)) = audioSourcesRef h /\
   nextStartTimeRef (fst (handleInterrupted m h)) = nextStartTimeRef h) \/
  (audioSourcesRef (fst (handleInterrupted m h)) = [] /\
   nextStartTimeRef (fst (handleInterrupted m h)) = 0).
Proof.
  destruct (interrupted m) eqn:Hi.
  - right. now destruct (handleInterrupted_on m h Hi) as (_ & -> & -> & _).
  - left. now rewrite handleInterrupted_off.
Qed.

Lemma onmessage_paired now m h : paired h -> paired (fst (onmessage now m h)).
Proof.
  assert (K1 : keeps inputAudioContextRef (onmessage now m)) by frame.
  assert (K2 : keeps outputAudioContextRef (onmessage now m)) by frame.
  assert (K3 : keeps inputAnalyserRef (onmessage now m)) by frame.
  assert (K4 : keeps outputAnalyserRef (onmessage now m)) by frame.
  apply paired_of_same_refs; [apply K1 | apply K2 | apply K3 | apply K4 |].
  intros Hc Hs Ht. destruct (modelTurn m) as [b|] eqn:Hm.
  - rewrite (onmessage_early now m b h Hm Hc).
    assert (Ks : keeps audioSourcesRef (prologue m ;; saveUserText))
      by (unfold prologue; frame).
    assert (Kt : keeps nextStartTimeRef (prologue m ;; saveUserText))
      by (unfold prologue; frame).
    now rewrite Ks, Kt.
  - rewrite (onmessage_no_audio now m h Hm). unfold flagsOf.
    rewrite <- seq_assoc, fst_seq.
    assert (Ks : keeps audioSourcesRef (prologue m ;; handleTurnComplete m))
      by (unfold prologue; frame).
    assert (Kt : keeps nextStartTimeRef (prologue m ;; handleTurnComplete m))
      by (unfold prologue; frame).
    destruct (handleInterrupted_timeline m (fst ((prologue m ;; handleTurnComplete m) h)))
      as [(-> & ->) | (-> & ->)]; [now rewrite Ks, Kt | now split].
Qed.

(** Without the output context the invocation that resumes stops where it
    connects its source. *)
Lemma resumed_stale ctx m h :
  modelTurn m <> None -> outputAudioContextRef h <> Some ctx ->
  resumed ctx m h = (set_nextObject (S (nextObject h)) h, []).
Proof.
  intros Hm Hc. apply resumed_off; [exact Hm|].
  destruct (connectable ctx h) eqn:E; [|reflexivity].
  apply connectable_iff in E. now destruct E.
Qed.

Lemma resumed_paired ctx m h : paired h -> paired (fst (resumed ctx m h)).
Proof.
  assert (K1 : keeps inputAudioContextRef (resumed ctx m)) by frame.
  assert (K2 : keeps outputAudioContextRef (resumed ctx m)) by frame.
  assert (K3 : keeps inputAnalyserRef (resumed ctx m)) by frame.
  assert (K4 : keeps outputAnalyserRef (resumed ctx m)) by frame.
  apply paired_of_same_refs; [apply K1 | apply K2 | apply K3 | apply K4 |].
  intros Hc Hs Ht. destruct (modelTurn m) as [b|] eqn:Hm.
  - rewrite resumed_stale by congruence. now split.
  - rewrite resumed_none by exact Hm. now split.
Qed.

Lemma handle_paired e h : paired h -> paired (fst (handle e h)).
Proof.
  intros Hp.
  destruct e as [env config| | |sess| |now m|ctx m| | | |node|fr]; cbn [handle].
  - now apply connect_paired.
  - apply idle_paired, cleanup_idle.
  - apply idle_paired, cleanup_idle.
  - revert Hp. apply paired_of_same_refs; try reflexivity. now intros.
  - revert Hp. apply paired_of_same_refs; try reflexivity. now intros.
  - now apply onmessage_paired.
  - now apply resumed_paired.
  - exact Hp.
  - apply idle_paired, cleanup_idle.
  - rewrite onerror_eq. apply idle_paired, cleanup_idle.
  - revert Hp. rewrite ended_eq. cbn [fst].
    apply paired_of_same_refs; try reflexivity.
    intros _ Hs Ht. cbn [audioSourcesRef nextStartTimeRef set_audioSourcesRef].
    now rewrite Hs.
  - assert (E : fst (audioprocess fr h) = h).
    { destruct h as [c1 c2 er ic oc ia oa t srcs sp cs ut at_ cfg oap n].
      unfold audioprocess. act. now destruct oap, sp. }
    now rewrite E.
Qed.

(** X10. The audio refs go together.  In every state in which a sequence of
    events leaves the hook, from its initial state, the two context refs and
    the two analyser refs are all set or all unset; when they are unset
    nothing is scheduled and the cursor is 0; a source is in the active set
    only while the output context ref is set.  The refs can change while a
    decoder runs.  The invocation that resumes connects its source (to
    [outputAnalyserRef.current!]) exactly when the output context ref still
    holds the context the call read.  After a [cleanup], or a [connect] that
    replaced the context, the connection of the source throws and the
    invocation ends there: it starts nothing, calls nothing back, and leaves
    the active set, the cursor and the two buffers as they were. *)
Theorem audio_refs_go_together (events : list Event) :
  let h := fst (run events initialHook) in
  paired h /\
  (outputAudioContextRef h <> None -> outputAnalyserRef h <> None) /\
  (audioSourcesRef h <> [] -> outputAudioContextRef h <> None) /\
  (forall ctx, connectable ctx h = true <-> outputAudioContextRef h = Some ctx) /\
  (forall ctx m,
     modelTurn m <> None -> outputAudioContextRef h <> Some ctx ->
     snd (resumed ctx m h) = [] /\
     audioSourcesRef (fst (resumed ctx m h)) = audioSourcesRef h /\
     nextStartTimeRef (fst (resumed ctx m h)) = nextStartTimeRef h /\
     currentAiTextRef (fst (resumed ctx m h)) = currentAiTextRef h /\
     currentUserTextRef (fst (resumed ctx m h)) = currentUserTextRef h).
Proof.
  assert (P : forall evs h0, paired h0 -> paired (fst (run evs h0))).
  { induction evs as [|e rest IH]; intros h0 Hp; [exact Hp|].
    cbn [run]. rewrite fst_seq. apply IH. now apply handle_paired. }
  intro h. assert (Hp : paired h).
  { apply P. split; [intros _; now repeat split | intros H; now elim H]. }
  split; [exact Hp|]. destruct Hp as (P1 & P2).
  split; [|split; [|split]].
  - intros Hc. now destruct (P2 Hc) as (_ & _ & Ha).
  - intros Hs Hc. now destruct (P1 Hc) as (_ & _ & _ & Hs' & _).
  - intros ctx. rewrite connectable_iff. split; [now intros (Hc & _)|].
    intros Hc. split; [exact Hc|].
    assert (Hn : outputAudioContextRef h <> None) by congruence.
    now destruct (P2 Hn) as (_ & _ & Ha).
  - intros ctx m Hm Hc. rewrite (resumed_stale ctx m h Hm Hc). now repeat split.
Qed.

(** After [disconnect] the invocation whose decoder was running finds no
    analyser and ends; after a second [connect] it finds the analyser of
    another context and ends as well. *)
Lemma stale_context_example :
  snd (run [OnMessage 0 (audioOnly oneSecond); Disconnect; Decoded 1 (audioOnly oneSecond)]
         connected) =
  snd (run [OnMessage 0 (audioOnly oneSecond); Disconnect] connected) /\
  starts (snd (run (OnMessage 0 (audioOnly oneSecond) :: Disconnect ::
                    Connect goodEnvironment appConfig ::
                    [Decoded 1 (audioOnly oneSecond)]) connected)) = [].
Proof. split; vm_compute; reflexivity. Qed.

(** * Properties of the application with the hook *)

Lemma callbacks_app now l1 l2 s :
  App.callbacks now (l1 ++ l2) s = App.callbacks now l2 (App.callbacks now l1 s).
Proof. apply fold_left_app. Qed.

Lemma callbacks_stops now srcs s : App.callbacks now (map SourceStop srcs) s = s.
Proof. induction srcs as [|x l IH]; [reflexivity | exact IH]. Qed.

Section Preserves.
Context (R : Hook -> App.State -> Prop).

Lemma preserves_skip : App.preserves R skip.
Proof. intros now h s H. exact H. Qed.

Lemma preserves_seq a b : App.preserves R a -> App.preserves R b -> App.preserves R (a ;; b).
Proof.
  intros Ha Hb now h s H. rewrite seq_eq. cbn [fst snd].
  rewrite callbacks_app. apply Hb, Ha, H.
Qed.

Lemma preserves_read {B : Type} (g : Hook -> B) k :
  (forall x, App.preserves R (k x)) -> App.preserves R (read g k).
Proof. intros Hk now h s H. now apply Hk. Qed.

Lemma preserves_session events : forall h s,
  (forall e, In e events -> App.preserves R (handle (snd e))) ->
  R h s ->
  R (fst (App.session events (h, s))) (snd (App.session events (h, s))).
Proof.
  induction events as [|e rest IH]; intros h s Hall H; [exact H|].
  cbn [App.session]. unfold App.deliverEvent. cbn [fst snd].
  apply IH; [intros e' He'; apply Hall; now right|].
  apply Hall; [now left | exact H].
Qed.
End Preserves.

(** Runs a procedure of the hook and the callbacks of its log on states
    given by their fields. *)
Ltac app_leaf :=
  repeat (act; cbn [hasT hasA App.sessionConfig transcriptCallbacks audioCallbacks
                    onUserTranscriptionChunk onUserTranscriptionComplete
                    onAiTranscriptionChunk onAiTranscriptionComplete onTurnComplete
                    onInterrupted onAudioLevel onSpeakingStateChange
                    List.length Nat.eqb];
          try match goal with
              | |- context [if ?c then _ else _] => destruct c eqn:?
              | |- context [match ?c with Some _ => _ | None => _ end] => destruct c eqn:?
              end).

(** ** The subtitle *)

Lemma mirrors_handleInputTranscription instruction m :
  App.preserves (App.mirrors instruction) (handleInputTranscription m).
Proof.
  intros now h s (Hc & Ht).
  destruct h as [c1 c2 er ic oc ia oa t srcs sp cs ut at_ cfg oap n].
  cbn [configRef currentAiTextRef] in Hc, Ht. subst cfg.
  unfold App.mirrors, handleInputTranscription.
  destruct (truthy (inputTranscription m)); app_leaf; now split.
Qed.

Lemma mirrors_handleOutputTranscription instruction m :
  App.preserves (App.mirrors instruction) (handleOutputTranscription m).
Proof.
  intros now h s (Hc & Ht).
  destruct h as [c1 c2 er ic oc ia oa t srcs sp cs ut at_ cfg oap n].
  cbn [configRef currentAiTextRef] in Hc, Ht. subst cfg.
  unfold App.mirrors, handleOutputTranscription.
  destruct (truthy (outputTranscription m)); app_leaf; cbn; [|now split].
  split; [reflexivity | now rewrite Ht].
Qed.

Lemma mirrors_saveUserText instruction :
  App.preserves (App.mirrors instruction) saveUserText.
Proof.
  intros now h s (Hc & Ht).
  destruct h as [c1 c2 er ic oc ia oa t srcs sp cs ut at_ cfg oap n].
  cbn [configRef currentAiTextRef] in Hc, Ht. subst cfg.
  unfold App.mirrors, saveUserText. app_leaf; cbn; now split.
Qed.

Lemma mirrors_beforeDecode instruction now0 :
  App.preserves (App.mirrors instruction) (beforeDecode now0).
Proof.
  intros now h s (Hc & Ht).
  destruct h as [c1 c2 er ic oc ia oa t srcs sp cs ut at_ cfg oap n].
  cbn [configRef currentAiTextRef] in Hc, Ht. subst cfg.
  unfold App.mirrors, beforeDecode. app_leaf; cbn; now split.
Qed.

Lemma mirrors_afterDecode instruction b :
  App.preserves (App.mirrors instruction) (afterDecode b).
Proof.
  intros now h s (Hc & Ht).
  destruct h as [c1 c2 er ic oc ia oa t srcs sp cs ut at_ cfg oap n].
  cbn [configRef currentAiTextRef] in Hc, Ht. subst cfg.
  unfold App.mirrors, afterDecode. app_leaf; cbn; now split.
Qed.

Lemma mirrors_handleTurnComplete instruction m :
  App.preserves (App.mirrors instruction) (handleTurnComplete m).
Proof.
  intros now h s (Hc & Ht).
  destruct h as [c1 c2 er ic oc ia oa t srcs sp cs ut at_ cfg oap n].
  cbn [configRef currentAiTextRef] in Hc, Ht. subst cfg.
  unfold App.mirrors, handleTurnComplete. destruct (turnComplete m); app_leaf; cbn;
    now split.
Qed.

Lemma mirrors_handleInterrupted instruction m :
  App.preserves (App.mirrors instruction) (handleInterrupted m).
Proof.
  intros now h s (Hc & Ht).
  destruct h as [c1 c2 er ic oc ia oa t srcs sp cs ut at_ cfg oap n].
  cbn [configRef currentAiTextRef] in Hc, Ht. subst cfg.
  unfold App.mirrors, handleInterrupted. destruct (interrupted m); app_leaf;
    [|now split].
  rewrite callbacks_app, callbacks_stops. cbn. now split.
Qed.

Lemma mirrors_onmessage instruction now0 m :
  App.preserves (App.mirrors instruction) (onmessage now0 m).
Proof.
  unfold onmessage.
  apply preserves_seq; [apply mirrors_handleInputTranscription|].
  apply preserves_seq; [apply mirrors_handleOutputTranscription|].
  assert (F : App.preserves (App.mirrors instruction)
                (handleTurnComplete m ;; handleInterrupted m)).
  { apply preserves_seq;
      [apply mirrors_handleTurnComplete | apply mirrors_handleInterrupted]. }
  destruct (modelTurn m) as [b|]; [|exact F].
  apply preserves_seq; [apply mirrors_saveUserText|].
  apply preserves_read. intros [ctx|]; [|apply preserves_skip].
  apply mirrors_beforeDecode.
Qed.

Lemma mirrors_resumed instruction ctx m :
  App.preserves (App.mirrors instruction) (resumed ctx m).
Proof.
  unfold resumed. destruct (modelTurn m) as [b|]; [|apply preserves_skip].
  apply preserves_read. intros [|].
  - apply preserves_seq; [apply mirrors_afterDecode|].
    apply preserves_seq;
      [apply mirrors_handleTurnComplete | apply mirrors_handleInterrupted].
  - intros now h s (Hc & Ht).
    destruct h as [c1 c2 er ic oc ia oa t srcs sp cs ut at_ cfg oap n].
    cbn [configRef currentAiTextRef] in Hc, Ht. subst cfg.
    unfold App.mirrors. app_leaf. now split.
Qed.

Lemma mirrors_handle instruction e :
  resets e = false -> App.preserves (App.mirrors instruction) (handle e).
Proof.
  intros He.
  destruct e as [env config| | |sess| |now0 m|ctx m| | | |node|fr]; try discriminate;
    cbn [handle]; try apply mirrors_onmessage; try apply mirrors_resumed;
    try exact (preserves_skip _);
    intros now h s (Hc & Ht);
    destruct h as [c1 c2 er ic oc ia oa t srcs sp cs ut at_ cfg oap n];
    cbn [configRef currentAiTextRef] in Hc, Ht; subst cfg;
    unfold App.mirrors.
  - unfold ended. app_leaf; cbn; now split.
  - unfold audioprocess. app_leaf; cbn; now split.
Qed.

(** X11. The subtitle shows the AI buffer.  With the callbacks
    [startSessionWithData] passes, if the text of the subtitle equals the AI
    buffer of the hook, it still does after any sequence of events that
    contains no [connect] and no [cleanup]: each AI chunk is appended to
    both, a turn completion and an interruption empty both. *)
Theorem subtitle_mirrors_ai_buffer (instruction : string) (events : list (Z * Event))
    (h : Hook) (s : App.State) :
  configRef h = App.sessionConfig instruction ->
  App.currentText s = currentAiTextRef h ->
  forallb (fun e => negb (resets (snd e))) events = true ->
  App.currentText (snd (App.session events (h, s))) =
  currentAiTextRef (fst (App.session events (h, s))).
Proof.
  intros Hc Ht Hall.
  apply (preserves_session (App.mirrors instruction) events h s); [|now split].
  intros e He. apply mirrors_handle.
  rewrite forallb_forall in Hall. now apply negb_true_iff, Hall.
Qed.

Lemma subtitle_mirrors_ai_buffer_witness :
  configRef appHook = App.sessionConfig "Be kind." /\
  App.currentText App.initial = currentAiTextRef appHook /\
  App.currentText
    (snd (App.session [(1%Z, OnMessage 0 (aiText "Hel")); (2%Z, OnMessage 0 (aiText "lo"))]
            (appHook, App.initial))) =
  currentAiTextRef
    (fst (App.session [(1%Z, OnMessage 0 (aiText "Hel")); (2%Z, OnMessage 0 (aiText "lo"))]
            (appHook, App.initial))) /\
  App.currentText
    (snd (App.session [(1%Z, OnMessage 0 (aiText "Hel")); (2%Z, OnMessage 0 (aiText "lo"))]
            (appHook, App.initial))) = "Hello".
Proof.
  assert (H1 : configRef appHook = App.sessionConfig "Be kind.") by (vm_compute; reflexivity).
  assert (H2 : App.currentText App.initial = currentAiTextRef appHook)
    by (vm_compute; reflexivity).
  split; [exact H1|]. split; [exact H2|]. split.
  - exact (subtitle_mirrors_ai_buffer "Be kind."
             [(1%Z, OnMessage 0 (aiText "Hel")); (2%Z, OnMessage 0 (aiText "lo"))]
             appHook App.initial H1 H2 eq_refl).
  - vm_compute. reflexivity.
Defined.

(** ** SPEAKING *)

Lemma setAdd_not_nil x l : setAdd x l <> [].
Proof.
  unfold setAdd. destruct (existsb (Nat.eqb x) l) eqn:E.
  - destruct l; [discriminate E | discriminate].
  - destruct l; discriminate.
Qed.

(** Closes a goal [scheduled] on states given by their fields. *)
Ltac scheduled_leaf Hs :=
  app_leaf; cbn; (split; [reflexivity|]); intro;
  first [ discriminate | now apply Hs | now apply setAdd_not_nil | congruence ].

Lemma scheduled_handleInputTranscription instruction m :
  App.preserves (App.scheduled instruction) (handleInputTranscription m).
Proof.
  intros now h s (Hc & Hs).
  destruct h as [c1 c2 er ic oc ia oa t srcs sp cs ut at_ cfg oap n].
  cbn [configRef audioSourcesRef] in Hc, Hs. subst cfg.
  unfold App.scheduled, handleInputTranscription.
  destruct (truthy (inputTranscription m)); scheduled_leaf Hs.
Qed.

Lemma scheduled_handleOutputTranscription instruction m :
  App.preserves (App.scheduled instruction) (handleOutputTranscription m).
Proof.
  intros now h s (Hc & Hs).
  destruct h as [c1 c2 er ic oc ia oa t srcs sp cs ut at_ cfg oap n].
  cbn [configRef audioSourcesRef] in Hc, Hs. subst cfg.
  unfold App.scheduled, handleOutputTranscription.
  destruct (truthy (outputTranscription m)); scheduled_leaf Hs.
Qed.

(** Once the source is scheduled the set is not empty. *)
Lemma scheduled_afterDecode instruction b now h s :
  configRef h = App.sessionConfig instruction ->
  App.scheduled instruction (fst (afterDecode b h))
    (App.callbacks now (snd (afterDecode b h)) s).
Proof.
  intros Hc.
  assert (K : keeps configRef (afterDecode b)) by frame.
  split; [now rewrite K|]. intros _.
  destruct h as [c1 c2 er ic oc ia oa t srcs sp cs ut at_ cfg oap n].
  unfold afterDecode. app_leaf; cbn; apply setAdd_not_nil.
Qed.

Lemma scheduled_handleTurnComplete instruction m :
  App.preserves (App.scheduled instruction) (handleTurnComplete m).
Proof.
  intros now h s (Hc & Hs).
  destruct h as [c1 c2 er ic oc ia oa t srcs sp cs ut at_ cfg oap n].
  cbn [configRef audioSourcesRef] in Hc, Hs. subst cfg.
  unfold App.scheduled, handleTurnComplete. destruct (turnComplete m); scheduled_leaf Hs.
Qed.

Lemma scheduled_handleInterrupted instruction m :
  App.preserves (App.scheduled instruction) (handleInterrupted m).
Proof.
  intros now h s (Hc & Hs).
  destruct h as [c1 c2 er ic oc ia oa t srcs sp cs ut at_ cfg oap n].
  cbn [configRef audioSourcesRef] in Hc, Hs. subst cfg.
  unfold App.scheduled, handleInterrupted. destruct (interrupted m);
    [|scheduled_leaf Hs].
  app_leaf. rewrite callbacks_app, callbacks_stops. cbn.
  split; [reflexivity | discriminate].
Qed.

Lemma scheduled_flagsOf instruction m :
  App.preserves (App.scheduled instruction) (flagsOf m).
Proof.
  unfold flagsOf. apply preserves_seq;
    [apply scheduled_handleTurnComplete | apply scheduled_handleInterrupted].
Qed.

(** A call on a message without audio. *)
Lemma scheduled_onmessage instruction now0 m :
  modelTurn m = None -> App.preserves (App.scheduled instruction) (onmessage now0 m).
Proof.
  intros Hm. unfold onmessage. rewrite Hm.
  apply preserves_seq; [apply scheduled_handleInputTranscription|].
  apply preserves_seq; [apply scheduled_handleOutputTranscription|].
  apply scheduled_flagsOf.
Qed.

(** The invocation that resumes, whatever was shown before when it connects
    its source. *)
Lemma scheduled_resumed_on instruction ctx m now h s :
  configRef h = App.sessionConfig instruction ->
  modelTurn m <> None -> connectable ctx h = true ->
  App.scheduled instruction (fst (resumed ctx m h))
    (App.callbacks now (snd (resumed ctx m h)) s).
Proof.
  intros Hc Hm Hcon. destruct (modelTurn m) as [b|] eqn:Eb; [|congruence].
  rewrite (resumed_on ctx m b h Eb Hcon), seq_eq. cbn [fst snd].
  rewrite callbacks_app. apply scheduled_flagsOf. now apply scheduled_afterDecode.
Qed.

Lemma scheduled_resumed instruction ctx m :
  App.preserves (App.scheduled instruction) (resumed ctx m).
Proof.
  intros now h s (Hc & Hs).
  destruct (modelTurn m) as [b|] eqn:Hm.
  - destruct (connectable ctx h) eqn:Hcon.
    + apply scheduled_resumed_on; [exact Hc | congruence | exact Hcon].
    + rewrite resumed_off by congruence. cbn [fst snd App.callbacks fold_left].
      split; [|exact Hs].
      now destruct h as [c1 c2 er ic oc ia oa t srcs sp cs ut at_ cfg oap n].
  - rewrite resumed_none by exact Hm. now split.
Qed.

Lemma scheduled_handle instruction e :
  resets e = false -> bringsAudio e = false ->
  App.preserves (App.scheduled instruction) (handle e).
Proof.
  intros He Hb.
  destruct e as [env config| | |sess| |now0 m|ctx m| | | |node|fr]; try discriminate;
    cbn [handle]; try apply scheduled_resumed; try exact (preserves_skip _).
  - apply scheduled_onmessage. cbn [bringsAudio] in Hb.
    now destruct (modelTurn m).
  - intros now h s (Hc & Hs).
    destruct h as [c1 c2 er ic oc ia oa t srcs sp cs ut at_ cfg oap n].
    cbn [configRef audioSourcesRef] in Hc, Hs. subst cfg.
    unfold App.scheduled, ended. act. destruct (setDelete node srcs) eqn:Hd.
    + app_leaf. cbn. split; [reflexivity | intro Hx; discriminate Hx].
    + app_leaf. cbn. split; [reflexivity | intros _; discriminate].
  - intros now h s (Hc & Hs).
    destruct h as [c1 c2 er ic oc ia oa t srcs sp cs ut at_ cfg oap n].
    cbn [configRef audioSourcesRef] in Hc, Hs. subst cfg.
    unfold App.scheduled, audioprocess. scheduled_leaf Hs.
Qed.

(** The call on a message with audio that finds the set empty notifies
    [true] last. *)
Lemma beforeDecode_first now h :
  hasA onSpeakingStateChange (configRef h) = true -> audioSourcesRef h = [] ->
  snd (beforeDecode now h) = [OnSpeakingStateChange true].
Proof.
  destruct h as [c1 c2 er ic oc ia oa t srcs sp cs ut at_ cfg oap n].
  cbn [configRef audioSourcesRef]. intros Hcb ->.
  unfold beforeDecode. act. cbn [List.length Nat.eqb]. now rewrite Hcb.
Qed.

(** X12. SPEAKING and the active set.  With the callbacks
    [startSessionWithData] passes: over any sequence of events that contains
    no [connect], no [cleanup] and no call of [onmessage] on a message with
    audio — invocations that resume, decoders that fail, ends of sources
    and capture frames included — the application's session state is
    SPEAKING only while the active set of the hook is not empty.  A call of
    [onmessage] on a message with audio breaks this: when the set is empty it
    notifies [true] before the [await], so that the application shows
    SPEAKING while the set is still empty, and it stays so if the decoder
    fails.  The invocation that resumes and connects its source restores it:
    afterwards the application shows SPEAKING only if the set is not
    empty. *)
Theorem speaking_means_scheduled (instruction : string) :
  (forall (events : list (Z * Event)) (h : Hook) (s : App.State),
     configRef h = App.sessionConfig instruction ->
     (App.sessionState s = App.SPEAKING -> audioSourcesRef h <> []) ->
     forallb (fun e => negb (resets (snd e)) && negb (bringsAudio (snd e))) events = true ->
     App.sessionState (snd (App.session events (h, s))) = App.SPEAKING ->
     audioSourcesRef (fst (App.session events (h, s))) <> []) /\
  (forall (t : Z) (now : Q) (m : LiveServerMessage) (h : Hook) (s : App.State),
     configRef h = App.sessionConfig instruction ->
     modelTurn m <> None -> outputAudioContextRef h <> None -> audioSourcesRef h = [] ->
     let arrived := App.session [(t, OnMessage now m)] (h, s) in
     App.sessionState (snd arrived) = App.SPEAKING /\
     audioSourcesRef (fst arrived) = [] /\
     forall t', App.session [(t', DecodeFailed)] arrived = arrived) /\
  (forall (t : Z) (ctx : nat) (m : LiveServerMessage) (h : Hook) (s : App.State),
     configRef h = App.sessionConfig instruction ->
     modelTurn m <> None -> connectable ctx h = true ->
     let resumption := App.session [(t, Decoded ctx m)] (h, s) in
     App.sessionState (snd resumption) = App.SPEAKING ->
     audioSourcesRef (fst resumption) <> []).
Proof.
  split; [|split].
  - intros events h s Hc Hs Hall.
    apply (preserves_session (App.scheduled instruction) events h s); [|now split].
    intros e He. rewrite forallb_forall in Hall. specialize (Hall e He).
    apply andb_true_iff in Hall as (H1 & H2).
    apply scheduled_handle; now apply negb_true_iff.
  - intros t now m h s Hc Hm Hctx Hs arrived.
    destruct (modelTurn m) as [b|] eqn:Eb; [|congruence].
    destruct (outputAudioContextRef h) as [ctx|] eqn:Ec; [|congruence].
    unfold arrived. cbn [App.session]. unfold App.deliverEvent. cbn [fst snd handle].
    assert (Kc : keeps configRef (prologue m ;; saveUserText)) by (unfold prologue; frame).
    assert (Ks : keeps audioSourcesRef (prologue m ;; saveUserText))
      by (unfold prologue; frame).
    assert (Kb : keeps audioSourcesRef (beforeDecode now)) by frame.
    rewrite (onmessage_suspended now m b ctx h Eb Ec), <- seq_assoc, seq_eq.
    cbn [fst snd]. rewrite callbacks_app, beforeDecode_first;
      [|now rewrite Kc, Hc | now rewrite Ks].
    split; [reflexivity|]. split; [now rewrite Kb, Ks | reflexivity].
  - intros t ctx m h s Hc Hm Hcon resumption. unfold resumption.
    cbn [App.session]. unfold App.deliverEvent. cbn [fst snd handle].
    now destruct (scheduled_resumed_on instruction ctx m t h s Hc Hm Hcon).
Qed.

(** The first chunk of audio of a session: the application shows SPEAKING when
    the chunk comes, with nothing scheduled; the source is scheduled when the
    decoder is done. *)
Lemma speaking_means_scheduled_witness :
  configRef appHook = App.sessionConfig "Be kind." /\
  modelTurn (audioOnly oneSecond) <> None /\
  outputAudioContextRef appHook <> None /\
  audioSourcesRef appHook = [] /\
  App.sessionState
    (snd (App.session [(1%Z, OnMessage 0 (audioOnly oneSecond))] (appHook, App.initial))) =
    App.SPEAKING /\
  audioSourcesRef
    (fst (App.session [(1%Z, OnMessage 0 (audioOnly oneSecond))] (appHook, App.initial))) = [] /\
  audioSourcesRef
    (fst (App.session [(1%Z, OnMessage 0 (audioOnly oneSecond));
                       (2%Z, Decoded 1 (audioOnly oneSecond))] (appHook, App.initial))) = [5%nat].
Proof.
  assert (H1 : configRef appHook = App.sessionConfig "Be kind.") by (vm_compute; reflexivity).
  assert (H2 : modelTurn (audioOnly oneSecond) <> None) by discriminate.
  assert (H3 : outputAudioContextRef appHook <> None) by (vm_compute; discriminate).
  assert (H4 : audioSourcesRef appHook = []) by (vm_compute; reflexivity).
  destruct (speaking_means_scheduled "Be kind.") as (_ & Hcall & _).
  destruct (Hcall 1%Z 0 (audioOnly oneSecond) appHook App.initial H1 H2 H3 H4)
    as (Hs & He & _).
  split; [exact H1|]. split; [exact H2|]. split; [exact H3|]. split; [exact H4|].
  split; [exact Hs|]. split; [exact He|].
  vm_compute. reflexivity.
Defined.

(** ** The status shown after [startSessionWithData] *)

Lemma connect_outcome env config h :
  (exists stream, granted env stream) \/
  (error (fst (connect env config h)) <> None /\
   (isConnected (fst (connect env config h)) = isConnected h \/
    isConnected (fst (connect env config h)) = false)).
Proof.
  unfold connect.
  destruct (truthy (API_KEY env)) eqn:Hk.
  - rewrite write_seq. destruct (mediaDevices env) eqn:Hm; cbn [negb].
    + destruct (AudioContextClass env) eqn:Ha.
      * destruct (getUserMedia env) as [stream|err] eqn:Hg.
        -- left. exists stream. repeat split; congruence.
        -- right. assert (Hk' : truthy (API_KEY env) <> None) by congruence.
           destruct (connect_rejected env config err h Hk' Hm Ha Hg) as (_ & E).
           unfold connect in E. rewrite Hk, Hm, write_seq in E. cbn [negb] in E.
           rewrite E. split.
           ++ match goal with |- error (fst (cleanup ?s)) <> _ =>
                destruct (cleanup_keeps s) as (-> & _) end. discriminate.
           ++ right. match goal with |- isConnected (fst (cleanup ?s)) = _ =>
                now destruct (cleanup_idle s)
                  as (_ & _ & _ & _ & _ & _ & _ & _ & _ & _ & -> & _) end.
      * right. assert (Hk' : truthy (API_KEY env) <> None) by congruence.
        pose proof (connect_no_web_audio env config h Hk' Hm Ha) as E.
        unfold connect in E. rewrite Hk, Hm, write_seq in E. cbn [negb] in E.
        rewrite E, connectCatch_eq. split.
        -- match goal with |- error (fst (cleanup ?s)) <> _ =>
             destruct (cleanup_keeps s) as (-> & _) end. discriminate.
        -- right. match goal with |- isConnected (fst (cleanup ?s)) = _ =>
             now destruct (cleanup_idle s)
               as (_ & _ & _ & _ & _ & _ & _ & _ & _ & _ & -> & _) end.
    + right. split; [discriminate | now left].
  - right. split; [discriminate | now left].
Qed.

(** X13. The status is set to connected too early.  [startSessionWithData]
    sets the voice status to connected as soon as [connect] returns.  From a
    hook that is not connected the hook is then never connected: a granted
    [connect] is still connecting, waiting for [onopen], and a [connect]
    that failed has set the error, which does not stop the status from
    being connected. *)
Theorem connected_status_is_premature (instruction : string) (env : Environment)
    (now : Z) (h : Hook) (s : App.State) :
  isConnected h = false ->
  let out := App.startSessionWithData instruction env now (h, s) in
  App.voiceStatus (snd out) = App.connected /\
  isConnected (fst out) = false /\
  ((forall stream, ~ granted env stream) -> error (fst out) <> None).
Proof.
  intros Hh out. unfold out, App.startSessionWithData, App.deliverEvent.
  cbn [fst snd handle App.voiceStatus App.setVoiceStatus].
  split; [reflexivity|].
  destruct (connect_outcome env (App.sessionConfig instruction) h)
    as [(stream & Hg) | (He & Hc)].
  - rewrite (connect_granted env _ stream h Hg). cbn [fst]. split; [exact Hh|].
    intros Hn. now elim (Hn stream).
  - split; [destruct Hc as [-> | ->]; [exact Hh | reflexivity] | intros _; exact He].
Qed.

(** The microphone is denied: the hook reports the error and is idle, the
    application shows connected. *)
Lemma connected_status_is_premature_witness :
  isConnected initialHook = false /\
  App.voiceStatus
    (snd (App.startSessionWithData "Be kind." deniedEnvironment 0
            (initialHook, App.initial))) = App.connected /\
  isConnected
    (fst (App.startSessionWithData "Be kind." deniedEnvironment 0
            (initialHook, App.initial))) = false /\
  error
    (fst (App.startSessionWithData "Be kind." deniedEnvironment 0
            (initialHook, App.initial))) =
    Some "Microphone access denied. Please allow microphone permission and try again.".
Proof.
  destruct (connected_status_is_premature "Be kind." deniedEnvironment 0 initialHook
              App.initial eq_refl) as (Hv & Hc & _).
  split; [reflexivity|]. split; [exact Hv|]. split; [exact Hc|].
  vm_compute. reflexivity.
Defined.

(** ** The history *)

Lemma callbacks_history now log : forall s,
  App.history (App.callbacks now log s) = App.history s ++ flat_map App.turnOf log.
Proof.
  induction log as [|c rest IH]; intro s.
  - cbn. now rewrite app_nil_r.
  - cbn [App.callbacks fold_left flat_map]. fold (App.callbacks now rest (App.callback now c s)).
    rewrite IH, app_assoc. f_equal.
    destruct c; cbn; unfold App.history; cbn; rewrite ?map_app, ?app_nil_r;
      try reflexivity.
    now destruct isSpeaking.
Qed.

(** X14. The history records the finished turns.  Over any sequence of
    events, the history of the application grows by the turns the hook
    hands over — a user turn for each call of [onUserTranscriptionComplete],
    an assistant turn for each call of [onAiTranscriptionComplete], with the
    text handed over, in the order of the calls — and by nothing else; no
    entry is removed or changed. *)
Theorem history_records_turns (events : list (Z * Event)) : forall (h : Hook) (s : App.State),
  App.history (snd (App.session events (h, s))) =
  App.history s ++ flat_map App.turnOf (snd (run (map snd events) h)).
Proof.
  induction events as [|e rest IH]; intros h s.
  - cbn. now rewrite app_nil_r.
  - cbn [App.session map run]. unfold App.deliverEvent. cbn [fst snd].
    rewrite IH, callbacks_history, snd_seq, flat_map_app. now rewrite app_assoc.
Qed.
